(** * The multi-account store of flyctl (package [config], accounts file)

    A shallow embedding of [internal/config]'s accounts code: the
    [AccountsFile] value with its methods, the locked load/save protocol
    ([LoadAccounts], [SaveAccounts], [unmarshalAccounts], [marshalAccounts])
    and [SyncActiveAccountToConfig], followed by the properties the
    specification states about them. *)

From stdpp Require Import base option list gmap strings.
From Stdlib Require Import ZArith Ascii.

Set Warnings "-clear-no-such-hyp".

Open Scope string_scope.
Open Scope list_scope.

(** ** Data model *)

(** A [time.Time] is kept as its instant, in nanoseconds after the zero time
    (January 1, year 1, 00:00:00 UTC); the location and the monotonic clock
    reading of the Go value are not part of the model. *)
Definition Time : Type := Z.

(** [Time.IsZero]. *)
Definition IsZero (t : Time) : bool := bool_decide (t = 0%Z).

(** [type Account struct]. *)
Record Account : Type := mkAccount {
  Email : string;
  AccessToken : string;
  MetricsToken : string;
  LastLogin : Time
}.

(** [type AccountsFile struct]. *)
Record AccountsFile : Type := mkAccountsFile {
  Active : string;
  Accounts : list Account
}.

(** Go errors.  [ErrNoAccounts] and [ErrAccountNotFound] are the package's
    sentinels; [ErrExternal] is an error handed back by a collaborator (lock
    primitive, file system, YAML codec, legacy-config setter), with the
    answer of [errors.Is(err, fs.ErrNotExist)] on it. *)
Inductive Error : Type :=
  | ErrNoAccounts
  | ErrAccountNotFound
  | ErrExternal (not_exist : bool) (msg : string).

(** [errors.Is(err, fs.ErrNotExist)]. *)
Definition is_not_exist (err : Error) : bool :=
  match err with
  | ErrExternal b _ => b
  | _ => false
  end.

(** A Go pair [(value, error)] with exactly one side set. *)
Inductive result (A : Type) : Type :=
  | Ok (a : A)
  | Err (e : Error).
Arguments Ok {A} a.
Arguments Err {A} e.

(** ** Account store *)

(** The zero value [AccountsFile{}]. *)
Definition empty_store : AccountsFile := {| Active := ""; Accounts := [] |}.

(** The loop shared by the methods:
    [for i := range af.Accounts { if af.Accounts[i].Email == email { ... } }],
    which stops at the first index whose entry carries [email]. *)
Definition find_email (email : string) (accounts : list Account)
  : option (nat * Account) :=
  list_find (λ a, Email a = email) accounts.

(** [func (af *AccountsFile) GetActiveAccount()], which returns an account
    pointer and an error.  The pointer [&af.Accounts[i]] is modelled by the
    entry it points to. *)
Definition GetActiveAccount (af : AccountsFile) : result Account :=
  match Accounts af with
  | [] => Err ErrNoAccounts
  | first :: _ =>
    if decide (Active af = "") then Ok first
    else
      match find_email (Active af) (Accounts af) with
      | Some (_, a) => Ok a
      | None => Ok first
      end
  end.

(** [func (af *AccountsFile) GetAccount(email string)], with the same
    result convention. *)
Definition GetAccount (af : AccountsFile) (email : string) : result Account :=
  match find_email email (Accounts af) with
  | Some (_, a) => Ok a
  | None => Err ErrAccountNotFound
  end.

(** [func (af *AccountsFile) AddOrUpdateAccount(account Account)].  The
    method has no result; the store after the call is returned. *)
Definition AddOrUpdateAccount (af : AccountsFile) (account : Account)
  : AccountsFile :=
  match find_email (Email account) (Accounts af) with
  | Some (i, _) =>
    {| Active := Email account; Accounts := <[i := account]> (Accounts af) |}
  | None =>
    {| Active := Email account; Accounts := Accounts af ++ [account] |}
  end.

(** [func (af *AccountsFile) RemoveAccount(email string) error]: the store
    after the call and the returned error ([None] is [nil]). *)
Definition RemoveAccount (af : AccountsFile) (email : string)
  : AccountsFile * option Error :=
  match find_email email (Accounts af) with
  | None => (af, Some ErrAccountNotFound)
  | Some (idx, _) =>
    let accounts := take idx (Accounts af) ++ drop (S idx) (Accounts af) in
    let active :=
      if decide (Active af = email) then
        match accounts with
        | a :: _ => Email a
        | [] => ""
        end
      else Active af in
    ({| Active := active; Accounts := accounts |}, None)
  end.

(** [func (af *AccountsFile) SetActive(email string) error]. *)
Definition SetActive (af : AccountsFile) (email : string)
  : AccountsFile * option Error :=
  match find_email email (Accounts af) with
  | Some _ => ({| Active := email; Accounts := Accounts af |}, None)
  | None => (af, Some ErrAccountNotFound)
  end.

(** [func (af *AccountsFile) HasAccounts() bool]. *)
Definition HasAccounts (af : AccountsFile) : bool :=
  bool_decide (0 < length (Accounts af)).

(** [func (af *AccountsFile) AccountCount() int]. *)
Definition AccountCount (af : AccountsFile) : nat := length (Accounts af).

(** The emails of a store, in order. *)
Definition emails (af : AccountsFile) : list string := Email <$> Accounts af.

(** ** Persistence layer and sync bridge *)

(** [const AccountsFileName]. *)
Definition AccountsFileName : string := "accounts.yml".

(** The permission bits [0o600]: read and write for the owner only. *)
Definition perm_0o600 : N := 384.

(** The calls the sync bridge makes on the legacy single-account
    configuration, as data: each is one of the package's three setters with
    its arguments. *)
Inductive SetterCall : Type :=
  | CallSetAccessToken (path token : string)
  | CallSetMetricsToken (path token : string)
  | CallSetLastLogin (path : string) (t : Time).

(** The deferred closure [if e := cleanup(); err == nil { err = e }]: the
    cleanup's result is kept only when nothing failed before it. *)
Definition deferred (cleanup err : option Error) : option Error :=
  match err with
  | Some _ => err
  | None => cleanup
  end.

Section Persistence.

(** [Doc] is the content of a file (the bytes of a YAML document);
    [Legacy] is the state of the legacy configuration behind the three
    setters.  Both belong to collaborators. *)
Context {Doc Legacy : Type}.

(** What the accounts code consumes from outside the shown file: path
    arithmetic, the lock primitive, the file system's failures, the YAML
    codec, and the legacy setters with the name of their file. *)
Record Env : Type := mkEnv {
  (** [filepath.Join] and [filepath.Dir] *)
  filepath_Join : string → string → string;
  filepath_Dir : string → string;
  (** [filemu.Lock] and [filemu.RLock] on a path: an error, or an unlock
      function, given by what calling it returns; the lock file they create
      at the path is not tracked *)
  filemu_Lock : string → result (option Error);
  filemu_RLock : string → result (option Error);
  (** failures of [os.Open] on a file that exists, of [File.Close] and
      of [os.WriteFile] *)
  open_fault : string → option Error;
  close_result : string → option Error;
  write_fault : string → option Error;
  (** [yaml.Marshal] and [yaml.NewDecoder(f).Decode] *)
  yaml_Marshal : AccountsFile → result Doc;
  yaml_Decode : Doc → result AccountsFile;
  (** [config.FileName] and the setters of the legacy configuration *)
  FileName : string;
  set_access_token : string → string → Legacy → Legacy * option Error;
  set_metrics_token : string → string → Legacy → Legacy * option Error;
  set_last_login : string → Time → Legacy → Legacy * option Error
}.

(** The state outside the process: the regular files by path with their
    permission bits, the legacy configuration, and (ghost) the setter calls
    made so far.  The lock file, which the lock primitive creates beside
    the accounts file, is not among [files]. *)
Record World : Type := mkWorld {
  files : gmap string Doc;
  modes : gmap string N;
  legacy : Legacy;
  setter_log : list SetterCall
}.

(** An open file: what it holds and what closing it returns. *)
Record File : Type := mkFile {
  content : Doc;
  Close : option Error
}.

Variable E : Env.

(** [os.Open]: a missing file is the not-exist error. *)
Definition os_Open (path : string) (w : World) : result File :=
  match files w !! path with
  | None => Err (ErrExternal true "open: no such file or directory")
  | Some d =>
    match open_fault E path with
    | Some e => Err e
    | None => Ok {| content := d; Close := close_result E path |}
    end
  end.

(** [os.WriteFile]: on success the file holds exactly [data]; [perm] is
    given to a file the call creates, and an existing file keeps its own.
    What a failed call leaves in the file is not modelled. *)
Definition os_WriteFile (path : string) (data : Doc) (perm : N) (w : World)
  : World * option Error :=
  match write_fault E path with
  | Some e => (w, Some e)
  | None =>
    ({| files := <[path := data]> (files w);
        modes := match files w !! path with
                 | Some _ => modes w
                 | None => <[path := perm]> (modes w)
                 end;
        legacy := legacy w;
        setter_log := setter_log w |}, None)
  end.

(** [func AccountsFilePath(configDir string) string]. *)
Definition AccountsFilePath (configDir : string) : string :=
  filepath_Join E configDir AccountsFileName.

(** [func accountsLockPath(configDir string) string]. *)
Definition accountsLockPath (configDir : string) : string :=
  filepath_Join E configDir "flyctl.accounts.lock".

(** [func unmarshalAccounts(path string, v interface{}) (err error)]: the
    value left in [v] (which the caller passes in as the zero value) and
    the error. *)
Definition unmarshalAccounts (path : string) (w : World)
  : AccountsFile * option Error :=
  let configDir := filepath_Dir E path in
  match filemu_RLock E (accountsLockPath configDir) with
  | Err e => (empty_store, Some e)
  | Ok unlock =>
    let '(v, err) :=
      match os_Open path w with
      | Err e => (empty_store, Some e)
      | Ok f =>
        let '(v, err) :=
          match yaml_Decode E (content f) with
          | Ok v => (v, None)
          | Err e => (empty_store, Some e)
          end in
        (v, deferred (Close f) err)
      end in
    (v, deferred unlock err)
  end.

(** [func marshalAccounts(path string, v interface{}) (err error)]. *)
Definition marshalAccounts (path : string) (v : AccountsFile) (w : World)
  : World * option Error :=
  let configDir := filepath_Dir E path in
  match filemu_Lock E (accountsLockPath configDir) with
  | Err e => (w, Some e)
  | Ok unlock =>
    let '(w', err) :=
      match yaml_Marshal E v with
      | Err e => (w, Some e)
      | Ok data => os_WriteFile path data perm_0o600 w
      end in
    (w', deferred unlock err)
  end.

(** [func LoadAccounts(configDir string)], which returns the store and an
    error. *)
Definition LoadAccounts (configDir : string) (w : World)
  : result AccountsFile :=
  let path := AccountsFilePath configDir in
  let '(af, err) := unmarshalAccounts path w in
  match err with
  | Some e => if is_not_exist e then Ok empty_store else Err e
  | None => Ok af
  end.

(** [func SaveAccounts(configDir string, af *AccountsFile) error]. *)
Definition SaveAccounts (configDir : string) (af : AccountsFile) (w : World)
  : World * option Error :=
  let path := AccountsFilePath configDir in
  marshalAccounts path af w.

(** A call of a legacy setter: the collaborator runs on the legacy
    configuration and the call is logged. *)
Definition invoke (c : SetterCall) (w : World) : World * option Error :=
  let '(l, err) :=
    match c with
    | CallSetAccessToken path token => set_access_token E path token (legacy w)
    | CallSetMetricsToken path token => set_metrics_token E path token (legacy w)
    | CallSetLastLogin path t => set_last_login E path t (legacy w)
    end in
  ({| files := files w;
      modes := modes w;
      legacy := l;
      setter_log := setter_log w ++ [c] |}, err).

(** [SetAccessToken], [SetMetricsToken] and [SetLastLogin] as the sync
    bridge calls them. *)
Definition SetAccessToken (path token : string) :=
  invoke (CallSetAccessToken path token).
Definition SetMetricsToken (path token : string) :=
  invoke (CallSetMetricsToken path token).
Definition SetLastLogin (path : string) (t : Time) :=
  invoke (CallSetLastLogin path t).

(** [if err := step; err != nil { return err }], then the rest. *)
Definition and_then (step rest : World → World * option Error) (w : World)
  : World * option Error :=
  let '(w', err) := step w in
  match err with
  | Some _ => (w', err)
  | None => rest w'
  end.

(** [if cond { if err := step; err != nil { return err } }]. *)
Definition when (cond : bool) (step : World → World * option Error) (w : World)
  : World * option Error :=
  if cond then step w else (w, None).

(** [func SyncActiveAccountToConfig(configDir string) error]. *)
Definition SyncActiveAccountToConfig (configDir : string) (w : World)
  : World * option Error :=
  match LoadAccounts configDir w with
  | Err e => (w, Some e)
  | Ok af =>
    if negb (HasAccounts af) then (w, None)
    else
      match GetActiveAccount af with
      | Err e => (w, Some e)
      | Ok account =>
        let configPath := filepath_Join E configDir (FileName E) in
        and_then (SetAccessToken configPath (AccessToken account))
          (and_then
             (when (negb (bool_decide (MetricsToken account = "")))
                (SetMetricsToken configPath (MetricsToken account)))
             (and_then
                (when (negb (IsZero (LastLogin account)))
                   (SetLastLogin configPath (LastLogin account)))
                (λ w, (w, None)))) w
      end
  end.

End Persistence.

Arguments Env : clear implicits.
Arguments World : clear implicits.
Arguments File : clear implicits.

(** ** Notions the specification uses *)

(** I1: no two entries share an email. *)
Definition I1 (af : AccountsFile) : Prop := NoDup (emails af).

(** I3: an empty store has an empty active marker. *)
Definition I3 (af : AccountsFile) : Prop := Accounts af = [] → Active af = "".

(** The active marker is empty or names an entry (I2 without its fallback). *)
Definition active_ok (af : AccountsFile) : Prop :=
  Active af = "" ∨ Active af ∈ emails af.

(** The stores the account-store operations reach from the empty store. *)
Inductive reachable : AccountsFile → Prop :=
  | reach_empty : reachable empty_store
  | reach_add af account :
      reachable af → reachable (AddOrUpdateAccount af account)
  | reach_remove af email :
      reachable af → reachable (RemoveAccount af email).1
  | reach_set_active af email :
      reachable af → reachable (SetActive af email).1.

(** The stores the account-store operations reach from a given store. *)
Inductive reachable_from (start : AccountsFile) : AccountsFile → Prop :=
  | from_start : reachable_from start start
  | from_add af account :
      reachable_from start af →
      reachable_from start (AddOrUpdateAccount af account)
  | from_remove af email :
      reachable_from start af →
      reachable_from start (RemoveAccount af email).1
  | from_set_active af email :
      reachable_from start af →
      reachable_from start (SetActive af email).1.

(** A sequence of [AddOrUpdateAccount] calls from the empty store. *)
Definition add_all (accounts : list Account) : AccountsFile :=
  foldl AddOrUpdateAccount empty_store accounts.

(** The number of distinct emails among the accounts added. *)
Definition distinct_emails (accounts : list Account) : nat :=
  size (list_to_set (Email <$> accounts) : gset string).

(** The setter calls the specification prescribes for an account, in
    order: the access token always, the metrics token if non-empty, the
    last login if non-zero. *)
Definition sync_calls (configPath : string) (account : Account)
  : list SetterCall :=
  [CallSetAccessToken configPath (AccessToken account)]
  ++ (if decide (MetricsToken account = "") then []
      else [CallSetMetricsToken configPath (MetricsToken account)])
  ++ (if decide (LastLogin account = 0%Z) then []
      else [CallSetLastLogin configPath (LastLogin account)]).

(** Calls made one after the other until one fails. *)
Fixpoint invoke_in_order {Doc Legacy : Type} (E : Env Doc Legacy)
    (calls : list SetterCall) (w : World Doc Legacy)
  : World Doc Legacy * option Error :=
  match calls with
  | [] => (w, None)
  | c :: rest =>
    let '(w', err) := invoke E c w in
    match err with
    | Some _ => (w', err)
    | None => invoke_in_order E rest w'
    end
  end.

(** The lock file [LoadAccounts] and [SaveAccounts] take for a directory:
    the lock path of the directory part of the accounts file's path. *)
Definition lock_path_of {Doc Legacy : Type} (E : Env Doc Legacy)
    (configDir : string) : string :=
  accountsLockPath E (filepath_Dir E (AccountsFilePath E configDir)).

(** The failure a load meets first, step by step: the shared lock, opening
    the file, decoding it, closing it, releasing the lock. *)
Inductive load_failure {Doc Legacy : Type} (E : Env Doc Legacy)
    (configDir : string) (w : World Doc Legacy) : Error → Prop :=
  | fail_rlock e :
      filemu_RLock E (lock_path_of E configDir) = Err e →
      load_failure E configDir w e
  | fail_open unlock e :
      filemu_RLock E (lock_path_of E configDir) = Ok unlock →
      os_Open E (AccountsFilePath E configDir) w = Err e →
      load_failure E configDir w e
  | fail_decode unlock f e :
      filemu_RLock E (lock_path_of E configDir) = Ok unlock →
      os_Open E (AccountsFilePath E configDir) w = Ok f →
      yaml_Decode E (content f) = Err e →
      load_failure E configDir w e
  | fail_close unlock f af e :
      filemu_RLock E (lock_path_of E configDir) = Ok unlock →
      os_Open E (AccountsFilePath E configDir) w = Ok f →
      yaml_Decode E (content f) = Ok af →
      Close f = Some e →
      load_failure E configDir w e
  | fail_unlock f af e :
      filemu_RLock E (lock_path_of E configDir) = Ok (Some e) →
      os_Open E (AccountsFilePath E configDir) w = Ok f →
      yaml_Decode E (content f) = Ok af →
      Close f = None →
      load_failure E configDir w e.

(** ** Sample data and a concrete environment *)

(** The accounts of the package's tests. *)
Definition user1 : Account := mkAccount "user1@example.com" "token1" "" 0%Z.
Definition user2 : Account := mkAccount "user2@example.com" "token2" "" 0%Z.
Definition user1_updated : Account :=
  mkAccount "user1@example.com" "token1-updated" "" 0%Z.

(** The first instants of year 0 and of year 10000 (UTC), in nanoseconds
    from the zero time, which is the first instant of year 1: 366 days
    before it and 3652059 days after it. *)
Definition year_0 : Time := (-31622400000000000)%Z.
Definition year_10000 : Time := 315537897600000000000%Z.

(** The accounts document as a tree of YAML nodes, written and read by the
    struct tags of [Account] and [AccountsFile]: the keys [active] and
    [accounts]; per account [email], [access_token], and, left out when
    empty or zero ([omitempty]), [metrics_token] and [last_login].  An
    absent key leaves the zero value in the decoded struct, a key other
    than these is ignored, and a mapping with a key that occurs twice is a
    decode error.  A time is written in RFC 3339 form whatever its year,
    and is read as a timestamp only when its year has four digits and no
    sign: a time outside the years 0 to 9999 is written and cannot be read.
    Strings are taken to be read as they were written, which the library
    does for the emails and tokens of the examples below but not for every
    string with a line break. *)
Module YamlDoc.

#[local] Unset Elimination Schemes.
Inductive Node : Type :=
  | Str (s : string)
  | Timestamp (t : Time)
  | Seq (items : list Node)
  | Mapping (fields : list (string * Node)).
#[local] Set Elimination Schemes.

Definition field (key : string) (fields : list (string * Node)) : option Node :=
  snd <$> (snd <$> list_find (λ kv, kv.1 = key) fields).

Definition encode_account (a : Account) : Node :=
  Mapping
    ([("email", Str (Email a)); ("access_token", Str (AccessToken a))]
     ++ (if decide (MetricsToken a = "") then []
         else [("metrics_token", Str (MetricsToken a))])
     ++ (if IsZero (LastLogin a) then []
         else [("last_login", Timestamp (LastLogin a))])).

Definition encode (af : AccountsFile) : Node :=
  Mapping [("active", Str (Active af));
           ("accounts", Seq (encode_account <$> Accounts af))].

(** No key occurs twice in the mapping. *)
Definition unique_keys (fields : list (string * Node)) : bool :=
  bool_decide (NoDup fields.*1).

Definition decode_string (n : option Node) : option string :=
  match n with
  | None => Some ""
  | Some (Str s) => Some s
  | Some _ => None
  end.

Definition decode_time (n : option Node) : option Time :=
  match n with
  | None => Some 0%Z
  | Some (Timestamp t) =>
    if bool_decide (year_0 ≤ t < year_10000)%Z then Some t else None
  | Some _ => None
  end.

Definition decode_account (n : Node) : option Account :=
  match n with
  | Mapping fs =>
    if unique_keys fs then
      email ← decode_string (field "email" fs);
      token ← decode_string (field "access_token" fs);
      metrics ← decode_string (field "metrics_token" fs);
      login ← decode_time (field "last_login" fs);
      Some (mkAccount email token metrics login)
    else None
  | _ => None
  end.

Definition decode_accounts (n : option Node) : option (list Account) :=
  match n with
  | None => Some []
  | Some (Seq items) => mapM decode_account items
  | Some _ => None
  end.

Definition decode (n : Node) : result AccountsFile :=
  match n with
  | Mapping fs =>
    match unique_keys fs,
          decode_string (field "active" fs),
          decode_accounts (field "accounts" fs) with
    | true, Some active, Some accounts => Ok (mkAccountsFile active accounts)
    | _, _, _ => Err (ErrExternal false "yaml: unmarshal errors")
    end
  | _ => Err (ErrExternal false "yaml: unmarshal errors")
  end.

End YamlDoc.

(** The legacy configuration as the three values its setters store. *)
Record LegacyConfig : Type := mkLegacyConfig {
  access_token : string;
  metrics_token : string;
  last_login : Time
}.

(** The directory part of a slash-separated path, if it has one. *)
Fixpoint dir_of (path : string) : option string :=
  match path with
  | EmptyString => None
  | String c rest =>
    match dir_of rest with
    | Some d => Some (String c d)
    | None => if decide (c = "/"%char) then Some "" else None
    end
  end.

(** An environment over YAML trees: [rlock] and [lock] are what the lock
    primitive answers, [metrics] what the metrics-token setter returns;
    every other collaborator succeeds.  Paths are joined with a slash and
    not cleaned, which is what [filepath.Join] gives for a directory like
    that of the examples, without a trailing slash. *)
Definition test_env (lock rlock : result (option Error)) (metrics : option Error)
  : Env YamlDoc.Node LegacyConfig :=
  {| filepath_Join := λ dir name, (dir ++ "/" ++ name)%string;
     filepath_Dir := λ path, default "." (dir_of path);
     filemu_Lock := λ _, lock;
     filemu_RLock := λ _, rlock;
     open_fault := λ _, None;
     close_result := λ _, None;
     write_fault := λ _, None;
     yaml_Marshal := λ af, Ok (YamlDoc.encode af);
     yaml_Decode := YamlDoc.decode;
     FileName := "config.yml";
     set_access_token := λ _ token l,
       (mkLegacyConfig token (metrics_token l) (last_login l), None);
     set_metrics_token := λ _ token l,
       match metrics with
       | Some e => (l, Some e)
       | None => (mkLegacyConfig (access_token l) token (last_login l), None)
       end;
     set_last_login := λ _ t l,
       (mkLegacyConfig (access_token l) (metrics_token l) t, None) |}.

(** Everything succeeds. *)
Definition ok_env : Env YamlDoc.Node LegacyConfig :=
  test_env (Ok None) (Ok None) None.

(** A world with no file at all. *)
Definition no_files : World YamlDoc.Node LegacyConfig :=
  mkWorld ∅ ∅ (mkLegacyConfig "" "" 0%Z) [].

(** The store of the package's load-and-save test: two accounts, the
    second without a metrics token. *)
Definition saved_store : AccountsFile :=
  mkAccountsFile "user1@example.com"
    [mkAccount "user1@example.com" "token1" "metrics1" 63871322400000000000%Z;
     mkAccount "user2@example.com" "token2" "" 63871408800000000000%Z].


(** An environment whose configuration directory is read-only and holds no
    lock file yet. *)
Definition read_only_env : Env YamlDoc.Node LegacyConfig :=
  test_env
    (Err (ErrExternal false "open flyctl.accounts.lock: permission denied"))
    (Err (ErrExternal false "open flyctl.accounts.lock: permission denied"))
    None.

(** An environment whose metrics-token setter fails. *)
Definition metrics_failing_env : Env YamlDoc.Node LegacyConfig :=
  test_env (Ok None) (Ok None)
    (Some (ErrExternal false "config.yml: permission denied")).

(** A world whose accounts file under ["/home/fly"] is not an accounts
    document. *)
Definition malformed_world : World YamlDoc.Node LegacyConfig :=
  mkWorld {[ "/home/fly/accounts.yml" := YamlDoc.Str "not a mapping" ]}
    {[ "/home/fly/accounts.yml" := perm_0o600 ]}
    (mkLegacyConfig "" "" 0%Z) [].

(** The world after [saved_store] was saved under ["/home/fly"]. *)
Definition saved_world : World YamlDoc.Node LegacyConfig :=
  (SaveAccounts ok_env "/home/fly" saved_store no_files).1.

(** ** The commands of package [auth] *)

(** An argument handed to a formatting call: a string, or an error (for
    [%v] and [%w]). *)
Inductive Arg : Type :=
  | AStr (s : string)
  | AErr (e : Error).

(** The error a command returns: [errors.New(msg)], [fmt.Errorf(format,
    args...)] with its format and arguments as written, or an error passed
    on as it came. *)
Inductive CmdError : Type :=
  | errors_New (msg : string)
  | fmt_Errorf (format : string) (args : list Arg)
  | Returned (e : Error).

(** How a command ends: [nil], an error, or the run-time panic of an index
    out of range. *)
Inductive Outcome : Type :=
  | Done
  | Failed (e : CmdError)
  | Panic.

(** One entry of the JSON listing ([type jsonAccount struct]). *)
Record jsonAccount : Type := mkJsonAccount {
  json_Email : string;
  json_Active : bool;
  json_LastLogin : string
}.

(** What a command does that can be observed, in order: writes to
    [io.Out] and [io.ErrOut] (format and arguments as passed, or the line
    of an [Fprintln]), [render.JSON], the logger's [Warnf] and [Debug], the
    [gql.LogOut] call made with a client of a token, [agent.Kill], and
    [config.Clear] on a path. *)
Inductive Event : Type :=
  | OutPrintf (format : string) (args : list string)
  | OutPrintln (line : string)
  | ErrPrintf (format : string) (args : list string)
  | RenderJSON (accounts : list jsonAccount)
  | Warnf (format : string) (args : list Arg)
  | Debug (e : Error)
  | LogOut (token : string)
  | Kill
  | Clear (path : string).

(** What the commands consume from the context and from the other
    packages. *)
Record Shell {Legacy : Type} : Type := mkShell {
  (** [state.ConfigDirectory(ctx)] and [state.ConfigFile(ctx)] *)
  ConfigDirectory : string;
  ConfigFile : string;
  (** [flag.FirstArg(ctx)], [flag.GetBool(ctx, "yes")], [cfg.JSONOutput] *)
  FirstArg : string;
  yes : bool;
  JSONOutput : bool;
  (** [prompt.Select] (message, options: the index chosen) and
      [prompt.Confirm], with [prompt.IsNonInteractive] on their errors *)
  prompt_Select : string → list string → result nat;
  prompt_Confirm : string → result bool;
  IsNonInteractive : Error → bool;
  (** the colour scheme of [io] *)
  Bold : string → string;
  Green : string → string;
  Yellow : string → string;
  (** the token of [flyutil.ClientFromContext(ctx)]; [Authenticated] of a
      client of a token; [gql.LogOut] through it: [resp.LogOut.Ok] or an
      error *)
  context_token : string;
  Authenticated : string → bool;
  gql_LogOut : string → result bool;
  (** [agent.DefaultClient(ctx)] ([None]: a client) and [ac.Kill(ctx)] *)
  agent_DefaultClient : option Error;
  agent_Kill : option Error;
  (** [config.Clear] *)
  config_Clear : string → Legacy → Legacy * option Error;
  (** [env.IsSet] and the two keys [config.APITokenEnvKey] and
      [config.AccessTokenEnvKey] *)
  env_IsSet : string → bool;
  APITokenEnvKey : string;
  AccessTokenEnvKey : string;
  (** [Time.Format] with a layout, and what [render.JSON] returns *)
  Format : Time → string → string;
  render_JSON : list jsonAccount → option Error
}.
Arguments Shell : clear implicits.

(** [errors.Is(err, config.ErrAccountNotFound)]. *)
Definition is_account_not_found (err : Error) : bool :=
  match err with
  | ErrAccountNotFound => true
  | _ => false
  end.

Section Commands.

Context {Doc Legacy : Type} (E : Env Doc Legacy) (S : Shell Legacy).

(** The world and what has been observed so far. *)
Record Machine : Type := mkMachine {
  world : World Doc Legacy;
  trace : list Event
}.

Definition emit (ev : Event) (m : Machine) : Machine :=
  {| world := world m; trace := trace m ++ [ev] |}.

Definition with_world (w : World Doc Legacy) (m : Machine) : Machine :=
  {| world := w; trace := trace m |}.

(** [func warnEnvVars(out io.Writer)], called with [io.ErrOut]. *)
Definition warnEnvVars (m : Machine) : Machine :=
  let keyExists := env_IsSet S (APITokenEnvKey S) in
  let tokenExists := env_IsSet S (AccessTokenEnvKey S) in
  if keyExists && tokenExists then
    emit (ErrPrintf
            "$%s & $%s are set in your environment; don't forget to remove them.\n"
            [APITokenEnvKey S; AccessTokenEnvKey S]) m
  else if keyExists then
    emit (ErrPrintf
            "$%s is set in your environment; don't forget to remove it.\n"
            [APITokenEnvKey S]) m
  else if tokenExists then
    emit (ErrPrintf
            "$%s is set in your environment; don't forget to remove it.\n"
            [AccessTokenEnvKey S]) m
  else m.

(** The revocation block of [runLogout] and [runRemove]:
    [if client.Authenticated() { resp, err := gql.LogOut(...); ... }],
    with the warning each of them logs. *)
Definition revoke (token : string) (warning : Event) (m : Machine) : Machine :=
  if Authenticated S token then
    let m := emit (LogOut token) m in
    match gql_LogOut S token with
    | Err e => emit (Debug e) (emit warning m)
    | Ok false => emit warning m
    | Ok true => m
    end
  else m.

(** [if ac, err := agent.DefaultClient(ctx); err == nil { _ = ac.Kill(ctx) }]. *)
Definition kill_agent (m : Machine) : Machine :=
  match agent_DefaultClient S with
  | None => emit Kill m
  | Some _ => m
  end.

(** [config.Clear(path)], on the legacy configuration. *)
Definition clear_config (path : string) (m : Machine)
  : Machine * option Error :=
  let '(l, err) := config_Clear S path (legacy (world m)) in
  (emit (Clear path)
     (with_world {| files := files (world m);
                    modes := modes (world m);
                    legacy := l;
                    setter_log := setter_log (world m) |} m), err).

(** The labels of the interactive selection. *)
Definition labels (af : AccountsFile) : list string :=
  (λ acc, if decide (Email acc = Active af)
          then (Email acc ++ " (current)")%string
          else Email acc) <$> Accounts af.

(** The target of [runSwitch] and [runRemove]: the first argument, or the
    email of the entry chosen at the prompt. *)
Inductive Target : Type :=
  | Chosen (email : string)
  | Stop (o : Outcome).

Definition choose_target (message : string) (af : AccountsFile) : Target :=
  if decide (FirstArg S = "") then
    match prompt_Select S message (labels af) with
    | Err e =>
      if IsNonInteractive S e then
        Stop (Failed (errors_New
                        "email argument required when not running interactively"))
      else Stop (Failed (Returned e))
    | Ok selectedIdx =>
      match Accounts af !! selectedIdx with
      | Some acc => Chosen (Email acc)
      | None => Stop Panic
      end
    end
  else Chosen (FirstArg S).

(** [func runSwitch(ctx context.Context) error]. *)
Definition runSwitch (m : Machine) : Machine * Outcome :=
  let configDir := ConfigDirectory S in
  match LoadAccounts E configDir (world m) with
  | Err e => (m, Failed (fmt_Errorf "failed to load accounts: %w" [AErr e]))
  | Ok af =>
    if negb (HasAccounts af) then
      (m, Failed (errors_New
                    "no accounts configured. Use 'fly auth login' to add an account"))
    else if bool_decide (AccountCount af = 1) then
      match Accounts af with
      | acc :: _ =>
        (emit (OutPrintf "Only one account configured: %s\n"
                 [Bold S (Email acc)]) m, Done)
      | [] => (m, Panic)
      end
    else
      match choose_target "Select account:" af with
      | Stop o => (m, o)
      | Chosen targetEmail =>
        if decide (targetEmail = Active af) then
          (emit (OutPrintf "Already using account: %s\n"
                   [Bold S targetEmail]) m, Done)
        else
          match SetActive af targetEmail with
          | (_, Some err) =>
            if is_account_not_found err then
              (m, Failed (fmt_Errorf
                            "account '%s' not found. Use 'fly auth accounts' to list available accounts"
                            [AStr targetEmail]))
            else (m, Failed (Returned err))
          | (af, None) =>
            let '(w, err) := SaveAccounts E configDir af (world m) in
            let m := with_world w m in
            match err with
            | Some e =>
              (m, Failed (fmt_Errorf "failed to save accounts: %w" [AErr e]))
            | None =>
              let '(w, err) := SyncActiveAccountToConfig E configDir w in
              let m := with_world w m in
              match err with
              | Some e =>
                (m, Failed (fmt_Errorf "failed to sync account config: %w"
                              [AErr e]))
              | None =>
                let m := kill_agent m in
                (emit (OutPrintf "Switched to account: %s\n"
                         [Green S targetEmail]) m, Done)
              end
            end
          end
      end
  end.

(** [func runLogout(ctx context.Context) (err error)]. *)
Definition runLogout (m : Machine) : Machine * Outcome :=
  let configDir := ConfigDirectory S in
  let m := revoke (context_token S) (Warnf "Unable to revoke token" []) m in
  let stop_agent : Machine * option Error :=
    match agent_DefaultClient S with
    | None => (emit Kill m, agent_Kill S)
    | Some _ => (m, None)
    end in
  match stop_agent with
  | (m, Some e) => (m, Failed (fmt_Errorf "failed stopping agent: %w" [AErr e]))
  | (m, None) =>
    let clear_everything (m : Machine) : Machine * Outcome :=
      let path := ConfigFile S in
      match clear_config path m with
      | (m, Some e) =>
        (m, Failed (fmt_Errorf "failed clearing config file at %s: %w\n"
                      [AStr path; AErr e]))
      | (m, None) =>
        (warnEnvVars (emit (OutPrintln "Logged out successfully.") m), Done)
      end in
    match LoadAccounts E configDir (world m) with
    | Ok af =>
      if HasAccounts af then
        let currentEmail := Active af in
        match RemoveAccount af currentEmail with
        | (af, None) =>
          let '(w, saveErr) := SaveAccounts E configDir af (world m) in
          let m := with_world w m in
          let m :=
            match saveErr with
            | Some e => emit (Warnf "Failed to save accounts file: %v" [AErr e]) m
            | None => m
            end in
          if HasAccounts af then
            let '(w, syncErr) := SyncActiveAccountToConfig E configDir (world m) in
            let m := with_world w m in
            let m :=
              match syncErr with
              | Some e =>
                emit (Warnf "Failed to sync account config: %v" [AErr e]) m
              | None => m
              end in
            let m := emit (OutPrintf "Logged out of %s\n"
                             [Yellow S currentEmail]) m in
            let m := emit (OutPrintf "Switched to account: %s\n"
                             [Green S (Active af)]) m in
            (warnEnvVars m, Done)
          else clear_everything m
        | (_, Some _) => clear_everything m
        end
      else clear_everything m
    | Err _ => clear_everything m
    end
  end.

(** The question [runRemove] asks before it removes. *)
Definition confirmation (af : AccountsFile) (targetEmail : string) : string :=
  if bool_decide (targetEmail = Active af) && bool_decide (1 < AccountCount af)
  then ("Remove account '" ++ targetEmail
        ++ "'? Another account will become active.")%string
  else if bool_decide (AccountCount af = 1)
  then ("Remove account '" ++ targetEmail
        ++ "'? This is your only account and you will be logged out.")%string
  else ("Remove account '" ++ targetEmail ++ "'?")%string.

(** [func runRemove(ctx context.Context) error]. *)
Definition runRemove (m : Machine) : Machine * Outcome :=
  let configDir := ConfigDirectory S in
  match LoadAccounts E configDir (world m) with
  | Err e => (m, Failed (fmt_Errorf "failed to load accounts: %w" [AErr e]))
  | Ok af =>
    if negb (HasAccounts af) then
      (m, Failed (errors_New "no accounts configured"))
    else
      match choose_target "Select account to remove:" af with
      | Stop o => (m, o)
      | Chosen targetEmail =>
        match GetAccount af targetEmail with
        | Err err =>
          if is_account_not_found err then
            (m, Failed (fmt_Errorf
                          "account '%s' not found. Use 'fly auth accounts' to list available accounts"
                          [AStr targetEmail]))
          else (m, Failed (Returned err))
        | Ok account =>
          let confirm : Target :=
            if yes S then Chosen targetEmail
            else
              match prompt_Confirm S (confirmation af targetEmail) with
              | Err e =>
                if IsNonInteractive S e then
                  Stop (Failed (errors_New
                                  "use --yes to skip confirmation prompt in non-interactive mode"))
                else Stop (Failed (Returned e))
              | Ok true => Chosen targetEmail
              | Ok false => Stop Done
              end in
          match confirm with
          | Stop Done => (emit (OutPrintln "Cancelled") m, Done)
          | Stop o => (m, o)
          | Chosen _ =>
            let wasActive := bool_decide (targetEmail = Active af) in
            let m :=
              if decide (AccessToken account = "") then m
              else revoke (AccessToken account)
                     (Warnf "Unable to revoke token for %s" [AStr targetEmail])
                     m in
            match RemoveAccount af targetEmail with
            | (_, Some err) => (m, Failed (Returned err))
            | (af, None) =>
              let '(w, err) := SaveAccounts E configDir af (world m) in
              let m := with_world w m in
              match err with
              | Some e =>
                (m, Failed (fmt_Errorf "failed to save accounts: %w" [AErr e]))
              | None =>
                if wasActive then
                  if HasAccounts af then
                    let '(w, err) :=
                      SyncActiveAccountToConfig E configDir (world m) in
                    let m := with_world w m in
                    match err with
                    | Some e =>
                      (m, Failed (fmt_Errorf
                                    "failed to sync account config: %w"
                                    [AErr e]))
                    | None =>
                      let m := kill_agent m in
                      let m := emit (OutPrintf "Removed account: %s\n"
                                       [Yellow S targetEmail]) m in
                      (emit (OutPrintf "Switched to account: %s\n"
                               [Green S (Active af)]) m, Done)
                    end
                  else
                    match clear_config (ConfigFile S) m with
                    | (m, Some e) =>
                      (m, Failed (fmt_Errorf "failed to clear config: %w"
                                    [AErr e]))
                    | (m, None) =>
                      let m := kill_agent m in
                      let m := emit (OutPrintf "Removed account: %s\n"
                                       [Yellow S targetEmail]) m in
                      (emit (OutPrintln
                               "No accounts remaining. Use 'fly auth login' to authenticate.")
                         m, Done)
                    end
                else
                  (emit (OutPrintf "Removed account: %s\n"
                           [Yellow S targetEmail]) m, Done)
              end
            end
          end
        end
      end
  end.

(** The entries of the JSON listing of [runAccounts]. *)
Definition json_accounts (af : AccountsFile) : list jsonAccount :=
  (λ acc,
     {| json_Email := Email acc;
        json_Active := bool_decide (Email acc = Active af);
        json_LastLogin :=
          if IsZero (LastLogin acc) then ""
          else Format S (LastLogin acc) "2006-01-02 15:04:05" |})
  <$> Accounts af.

(** The line [runAccounts] prints for an account. *)
Definition account_line (af : AccountsFile) (acc : Account) : Event :=
  let marker :=
    if decide (Email acc = Active af) then Green S "* " else "  " in
  let email :=
    if decide (Email acc = Active af) then Bold S (Email acc) else Email acc in
  let lastLogin :=
    if IsZero (LastLogin acc) then ""
    else (" (last login: " ++ Format S (LastLogin acc) "2006-01-02" ++ ")")%string in
  OutPrintf "%s%s%s\n" [marker; email; lastLogin].

(** [func runAccounts(ctx context.Context) error]. *)
Definition runAccounts (m : Machine) : Machine * Outcome :=
  let configDir := ConfigDirectory S in
  match LoadAccounts E configDir (world m) with
  | Err e => (m, Failed (fmt_Errorf "failed to load accounts: %w" [AErr e]))
  | Ok af =>
    if negb (HasAccounts af) then
      (emit (OutPrintln
               "No accounts configured. Use 'fly auth login' to add an account.")
         m, Done)
    else if JSONOutput S then
      (emit (RenderJSON (json_accounts af)) m,
       match render_JSON S (json_accounts af) with
       | Some e => Failed (Returned e)
       | None => Done
       end)
    else
      let m := emit (OutPrintln "Authenticated accounts:") m in
      let m := emit (OutPrintln "") m in
      let m := foldl (λ m acc, emit (account_line af acc) m) m (Accounts af) in
      let m := emit (OutPrintln "") m in
      (emit (OutPrintf "Active account: %s\n" [Bold S (Active af)]) m, Done)
  end.

End Commands.

Arguments Machine : clear implicits.
Arguments mkMachine {Doc Legacy}.

(** A shell for the commands: the argument, the [--yes] flag, the answer
    to the confirmation and the result of [agent.Kill] are given; there is
    no terminal to prompt on, the colours are plain, every token is
    revoked when asked, and the environment sets neither variable. *)
Definition test_shell (arg : string) (yes_flag : bool) (confirm : result bool)
    (kill : option Error) : Shell LegacyConfig :=
  {| ConfigDirectory := "/home/fly";
     ConfigFile := "/home/fly/config.yml";
     FirstArg := arg;
     yes := yes_flag;
     JSONOutput := true;
     prompt_Select := λ _ _, Err (ErrExternal false "prompt: non interactive");
     prompt_Confirm := λ _, confirm;
     IsNonInteractive := λ _, true;
     Bold := λ s, s;
     Green := λ s, s;
     Yellow := λ s, s;
     context_token := "token1";
     Authenticated := λ token, negb (bool_decide (token = ""));
     gql_LogOut := λ _, Ok true;
     agent_DefaultClient := None;
     agent_Kill := kill;
     config_Clear := λ _ _, (mkLegacyConfig "" "" 0%Z, None);
     env_IsSet := λ _, false;
     APITokenEnvKey := "FLY_API_TOKEN";
     AccessTokenEnvKey := "FLY_ACCESS_TOKEN";
     Format := λ _ _, "2025-01-01";
     render_JSON := λ _, None |}.

(** The machine on which the saved store is on disk and nothing has been
    observed yet. *)
Definition saved_machine : Machine YamlDoc.Node LegacyConfig :=
  mkMachine saved_world [].

(** The machine whose accounts file holds the given store. *)
Definition machine_with (af : AccountsFile)
  : Machine YamlDoc.Node LegacyConfig :=
  mkMachine (SaveAccounts ok_env "/home/fly" af no_files).1 [].

(** A store whose marker names no account, and one with a single
    account. *)
Definition stale_store : AccountsFile :=
  mkAccountsFile "gone@example.com" [user1; user2].
Definition single_store : AccountsFile :=
  mkAccountsFile "user2@example.com" [user2].

(** The shell of a command run with [--yes] and the given argument. *)
Definition yes_shell (arg : string) : Shell LegacyConfig :=
  test_shell arg true (Ok true) None.

(** An environment in which the accounts can be read but not locked for
    writing. *)
Definition write_locked_env : Env YamlDoc.Node LegacyConfig :=
  test_env (Err (ErrExternal false "lock: resource temporarily unavailable"))
    (Ok None) None.


(** ** Further notions *)

(** I2, strictly: where there is an account, the active marker is the email
    of one. *)
Definition I2 (af : AccountsFile) : Prop :=
  Accounts af ≠ [] → Active af ∈ emails af.

(** Events among which there is no [config.Clear]. *)
Definition no_clear (events : list Event) : Prop :=
  ∀ path, Clear path ∉ events.

(** A machine reached from another by events without [config.Clear]. *)
Definition quiet {Doc Legacy : Type} (m m' : Machine Doc Legacy) : Prop :=
  ∃ events, trace m' = trace m ++ events ∧ no_clear events.

(** * Properties *)

(** ** The lookup loop *)

Lemma find_email_Some email accounts i a :
  find_email email accounts = Some (i, a)
  ↔ accounts !! i = Some a ∧ Email a = email
    ∧ ∀ j b, accounts !! j = Some b → j < i → Email b ≠ email.
Proof. unfold find_email. by rewrite list_find_Some. Qed.

Lemma find_email_None email accounts :
  find_email email accounts = None ↔ email ∉ (Email <$> accounts).
Proof.
  unfold find_email. rewrite list_find_None, Forall_forall. split.
  - intros Hno (a & -> & Hin)%list_elem_of_fmap. by apply (Hno a).
  - intros Hno a Hin <-. apply Hno, list_elem_of_fmap. eauto.
Qed.

Lemma find_email_elem email accounts :
  email ∈ (Email <$> accounts) → is_Some (find_email email accounts).
Proof.
  intros Hin. destruct (find_email email accounts) eqn:Hfind; [eauto|].
  by apply find_email_None in Hfind.
Qed.

(** The entry found is cut out by [take] and [drop] around its index. *)
Lemma find_email_split email accounts i a :
  find_email email accounts = Some (i, a) →
  accounts = take i accounts ++ a :: drop (S i) accounts
  ∧ email ∉ (Email <$> take i accounts).
Proof.
  intros (Hi & He & Hleast)%find_email_Some. split.
  - by rewrite <- (take_drop_middle accounts i a) at 1.
  - intros (b & Hb & Hin)%list_elem_of_fmap.
    apply list_elem_of_lookup in Hin as [j Hj].
    apply lookup_take_Some in Hj as [Hj Hlt].
    by apply (Hleast j b).
Qed.

(** ** Account store *)

(** The scenarios of the package's tests. *)
Example scenario_add_update :
  AddOrUpdateAccount empty_store user1
  = mkAccountsFile "user1@example.com" [user1]
  ∧ AddOrUpdateAccount (AddOrUpdateAccount empty_store user1) user2
    = mkAccountsFile "user2@example.com" [user1; user2]
  ∧ add_all [user1; user2; user1_updated]
    = mkAccountsFile "user1@example.com" [user1_updated; user2]
  ∧ GetAccount (add_all [user1; user2; user1_updated]) "user1@example.com"
    = Ok user1_updated.
Proof. by split_and!. Qed.

Example scenario_remove :
  RemoveAccount (mkAccountsFile "user1@example.com" [user1; user2])
    "user1@example.com"
  = (mkAccountsFile "user2@example.com" [user2], None)
  ∧ RemoveAccount (mkAccountsFile "user2@example.com" [user2])
      "nonexistent@example.com"
    = (mkAccountsFile "user2@example.com" [user2], Some ErrAccountNotFound)
  ∧ RemoveAccount (mkAccountsFile "user2@example.com" [user2])
      "user2@example.com"
    = (empty_store, None)
  ∧ HasAccounts empty_store = false.
Proof. by split_and!. Qed.

Example scenario_set_active :
  SetActive (mkAccountsFile "user1@example.com" [user1; user2])
    "user2@example.com"
  = (mkAccountsFile "user2@example.com" [user1; user2], None)
  ∧ SetActive (mkAccountsFile "user2@example.com" [user1; user2])
      "nonexistent@example.com"
    = (mkAccountsFile "user2@example.com" [user1; user2],
       Some ErrAccountNotFound).
Proof. by split_and!. Qed.

Example scenario_get_active :
  GetActiveAccount empty_store = Err ErrNoAccounts
  ∧ GetActiveAccount (mkAccountsFile "" [user1]) = Ok user1
  ∧ GetActiveAccount (mkAccountsFile "user1@example.com" [user1]) = Ok user1.
Proof. by split_and!. Qed.

(** C2.  [GetActiveAccount] returns [ErrNoAccounts] exactly when the store
    has no account.  On a non-empty store it returns the first entry when
    the active marker is empty or carries no entry's email, and otherwise
    the (first) entry whose email is the active marker. *)
Theorem GetActiveAccount_spec (af : AccountsFile) :
  (GetActiveAccount af = Err ErrNoAccounts ↔ Accounts af = [])
  ∧ (∀ first rest, Accounts af = first :: rest →
       (Active af = "" ∨ Active af ∉ emails af →
          GetActiveAccount af = Ok first)
       ∧ (Active af ≠ "" → Active af ∈ emails af →
          ∃ i a, Accounts af !! i = Some a ∧ Email a = Active af
                 ∧ (∀ j b, Accounts af !! j = Some b → j < i →
                           Email b ≠ Active af)
                 ∧ GetActiveAccount af = Ok a)).
Proof.
  destruct af as [active accounts]. unfold GetActiveAccount, emails. simpl.
  split.
  - destruct accounts as [|first rest]; [done|].
    split; [|done]. case_decide; [done|].
    by destruct (find_email active (first :: rest)) as [[? ?]|].
  - intros first rest ->. split.
    + intros [->|Hnot]; [done|]. case_decide; [done|].
      apply find_email_None in Hnot. by rewrite Hnot.
    + intros Hne Hin. rewrite decide_False by done.
      destruct (find_email_elem _ _ Hin) as [[i a] Hfind]. rewrite Hfind.
      apply find_email_Some in Hfind as (? & ? & ?). eauto 10.
Qed.

(** Both cases of C2 at work: a stale marker falls back to the first
    entry, a matching one selects its entry. *)
Lemma GetActiveAccount_spec_witness :
  GetActiveAccount (mkAccountsFile "gone@example.com" [user1; user2])
  = Ok user1
  ∧ ∃ i a, [user1; user2] !! i = Some a ∧ Email a = "user2@example.com"
           ∧ (∀ j b, [user1; user2] !! j = Some b → j < i →
                     Email b ≠ "user2@example.com")
           ∧ GetActiveAccount
               (mkAccountsFile "user2@example.com" [user1; user2]) = Ok a.
Proof.
  split.
  - apply (GetActiveAccount_spec
             (mkAccountsFile "gone@example.com" [user1; user2]))
      with (rest := [user2]); [done|].
    right. by apply (bool_decide_unpack _).
  - apply (GetActiveAccount_spec
             (mkAccountsFile "user2@example.com" [user1; user2]))
      with (first := user1) (rest := [user2]); [done|done|].
    by apply (bool_decide_unpack _).
Defined.

(** What [RemoveAccount] does once the loop has found an entry: the store
    is split around the first entry with the email, and that entry goes. *)
Lemma RemoveAccount_found af email :
  email ∈ emails af →
  ∃ before a after,
    Accounts af = before ++ a :: after
    ∧ Email a = email
    ∧ (email ∉ Email <$> before)
    ∧ RemoveAccount af email =
        ({| Active :=
              (if decide (Active af = email) then
                 match (before ++ after)%list with
                 | first :: _ => Email first
                 | [] => ""
                 end
               else Active af);
            Accounts := before ++ after |}, None).
Proof.
  intros [[i a] Hfind]%find_email_elem.
  destruct (find_email_split _ _ _ _ Hfind) as [Hsplit Hbefore].
  exists (take i (Accounts af)), a, (drop (S i) (Accounts af)).
  split_and!; [done| |done|].
  - by apply find_email_Some in Hfind as (_ & ? & _).
  - unfold RemoveAccount. by rewrite Hfind.
Qed.

(** C4.  When the email matches an entry, [RemoveAccount] deletes that
    entry (the first with the email) and keeps the others in their order.
    If the active marker was the removed email, it becomes the email of the
    first entry that remains, or the empty string when none remains. *)
Theorem RemoveAccount_spec (af : AccountsFile) (email : string) :
  email ∈ emails af →
  ∃ before a after af',
    Accounts af = before ++ a :: after
    ∧ Email a = email
    ∧ (email ∉ Email <$> before)
    ∧ RemoveAccount af email = (af', None)
    ∧ Accounts af' = before ++ after
    ∧ (Active af = email →
       (∀ first rest, before ++ after = first :: rest →
                      Active af' = Email first)
       ∧ (before ++ after = [] → Active af' = "")).
Proof.
  intros (before & a & after & Hsplit & Ha & Hbefore & Hrm)%RemoveAccount_found.
  eexists before, a, after, _. split_and!; [done..| |]; simpl.
  - done.
  - intros Hactive. rewrite decide_True by done.
    split; [by intros first rest ->|by intros ->].
Qed.

(** C4 on the store of the removal test: the active account goes and the
    marker moves to the one that remains. *)
Lemma RemoveAccount_spec_witness :
  ∃ before a after af',
    [user1; user2] = before ++ a :: after
    ∧ Email a = "user1@example.com"
    ∧ ("user1@example.com" ∉ Email <$> before)
    ∧ RemoveAccount (mkAccountsFile "user1@example.com" [user1; user2])
        "user1@example.com" = (af', None)
    ∧ Accounts af' = before ++ after
    ∧ ("user1@example.com" = "user1@example.com" →
       (∀ first rest, before ++ after = first :: rest →
                      Active af' = Email first)
       ∧ (before ++ after = [] → Active af' = "")).
Proof.
  apply (RemoveAccount_spec (mkAccountsFile "user1@example.com" [user1; user2])
           "user1@example.com").
  by apply (bool_decide_unpack _).
Defined.

Lemma RemoveAccount_not_found af email :
  email ∉ emails af → RemoveAccount af email = (af, Some ErrAccountNotFound).
Proof.
  intros Hfind%find_email_None. unfold RemoveAccount. by rewrite Hfind.
Qed.

Lemma SetActive_not_found af email :
  email ∉ emails af → SetActive af email = (af, Some ErrAccountNotFound).
Proof.
  intros Hfind%find_email_None. unfold SetActive. by rewrite Hfind.
Qed.

(** C5.  On an email that matches no entry, [RemoveAccount] and
    [SetActive] both return [ErrAccountNotFound] and hand back the store
    they were given, marker and accounts alike. *)
Theorem not_found_unchanged (af : AccountsFile) (email : string) :
  email ∉ emails af →
  RemoveAccount af email = (af, Some ErrAccountNotFound)
  ∧ SetActive af email = (af, Some ErrAccountNotFound).
Proof.
  intros Hnot. split.
  - by apply RemoveAccount_not_found.
  - by apply SetActive_not_found.
Qed.

(** C5 on the store and the email of the tests. *)
Lemma not_found_unchanged_witness :
  RemoveAccount (mkAccountsFile "user2@example.com" [user2])
    "nonexistent@example.com"
  = (mkAccountsFile "user2@example.com" [user2], Some ErrAccountNotFound)
  ∧ SetActive (mkAccountsFile "user2@example.com" [user2])
      "nonexistent@example.com"
    = (mkAccountsFile "user2@example.com" [user2], Some ErrAccountNotFound).
Proof.
  apply (not_found_unchanged (mkAccountsFile "user2@example.com" [user2])
           "nonexistent@example.com").
  by apply (bool_decide_unpack _).
Defined.

(** C10.  Removing an account whose email is not the active marker deletes
    that entry and nothing else: the other entries stay in place and the
    marker is the one the store had. *)
Theorem RemoveAccount_non_active (af : AccountsFile) (email : string) :
  email ∈ emails af →
  Active af ≠ email →
  ∃ before a after,
    Accounts af = before ++ a :: after
    ∧ Email a = email
    ∧ (email ∉ Email <$> before)
    ∧ RemoveAccount af email =
        ({| Active := Active af; Accounts := before ++ after |}, None).
Proof.
  intros (before & a & after & Hsplit & Ha & Hbefore & Hrm)%RemoveAccount_found
         Hactive.
  exists before, a, after. rewrite decide_False in Hrm by done. done.
Qed.

(** C10 with [user1] active and [user2] removed. *)
Lemma RemoveAccount_non_active_witness :
  ∃ before a after,
    [user1; user2] = before ++ a :: after
    ∧ Email a = "user2@example.com"
    ∧ ("user2@example.com" ∉ Email <$> before)
    ∧ RemoveAccount (mkAccountsFile "user1@example.com" [user1; user2])
        "user2@example.com" =
        ({| Active := "user1@example.com"; Accounts := before ++ after |}, None).
Proof.
  apply (RemoveAccount_non_active
           (mkAccountsFile "user1@example.com" [user1; user2])
           "user2@example.com").
  - by apply (bool_decide_unpack _).
  - by apply (bool_decide_unpack _).
Defined.

(** An entry with the email, after entries without it, is the one the loop
    finds. *)
Lemma find_email_middle email before a after :
  email ∉ Email <$> before → Email a = email →
  find_email email (before ++ a :: after) = Some (length before, a).
Proof.
  intros Hbefore Ha. apply find_email_Some. split_and!.
  - by apply list_lookup_middle.
  - done.
  - intros j b Hj Hlt <-. apply Hbefore, list_elem_of_fmap.
    exists b. split; [done|]. apply list_elem_of_lookup. exists j.
    by rewrite lookup_app_l in Hj.
Qed.

(** What [AddOrUpdateAccount] leaves: the account sits after entries that
    do not carry its email, either in the place of the first entry that
    did or at the end. *)
Lemma AddOrUpdateAccount_cases af account :
  (∃ before old after,
      Accounts af = before ++ old :: after
      ∧ Email old = Email account
      ∧ (Email account ∉ Email <$> before)
      ∧ AddOrUpdateAccount af account =
          {| Active := Email account; Accounts := before ++ account :: after |})
  ∨ ((Email account ∉ emails af)
     ∧ AddOrUpdateAccount af account =
         {| Active := Email account; Accounts := Accounts af ++ [account] |}).
Proof.
  unfold AddOrUpdateAccount.
  destruct (find_email (Email account) (Accounts af)) as [[i old]|] eqn:Hfind.
  - left. destruct (find_email_split _ _ _ _ Hfind) as [Hsplit Hbefore].
    pose proof Hfind as (Hi & Hold & _)%find_email_Some.
    exists (take i (Accounts af)), old, (drop (S i) (Accounts af)).
    split_and!; [done..|]. f_equal.
    apply insert_take_drop. by apply lookup_lt_Some in Hi.
  - right. by apply find_email_None in Hfind.
Qed.

(** C3, as the code has it.  [AddOrUpdateAccount] is a total function on
    stores.  If an entry carries the account's email, the first such entry
    is replaced where it stands; otherwise the account is appended.  In
    both cases the active marker becomes the account's email, and when that
    email is not the empty string [GetActiveAccount] then returns the
    account. *)
Theorem AddOrUpdateAccount_spec (af : AccountsFile) (account : Account) :
  (Email account ∈ emails af →
   ∃ before old after,
     Accounts af = before ++ old :: after
     ∧ Email old = Email account
     ∧ (Email account ∉ Email <$> before)
     ∧ Accounts (AddOrUpdateAccount af account) = before ++ account :: after)
  ∧ (Email account ∉ emails af →
     Accounts (AddOrUpdateAccount af account) = Accounts af ++ [account])
  ∧ Active (AddOrUpdateAccount af account) = Email account
  ∧ (Email account ≠ "" →
     GetActiveAccount (AddOrUpdateAccount af account) = Ok account).
Proof.
  destruct (AddOrUpdateAccount_cases af account)
    as [(before & old & after & Hsplit & Hold & Hbefore & ->)|[Hnot ->]]; simpl.
  - split_and!; [by eauto 10| |done|].
    + intros []. unfold emails. rewrite Hsplit, fmap_app, fmap_cons, Hold.
      set_solver.
    + intros Hne. unfold GetActiveAccount. simpl.
      rewrite (find_email_middle _ before account after) by done.
      destruct before; simpl; by rewrite decide_False.
  - split_and!; [done..|].
    intros Hne. unfold GetActiveAccount. simpl.
    rewrite (find_email_middle _ (Accounts af) account []) by done.
    destruct (Accounts af); simpl; by rewrite decide_False.
Qed.

(** C3 on the update of the tests: [user1] is replaced where it stands and
    becomes the active account. *)
Lemma AddOrUpdateAccount_spec_witness :
  (∃ before old after,
     [user1; user2] = before ++ old :: after
     ∧ Email old = "user1@example.com"
     ∧ ("user1@example.com" ∉ Email <$> before)
     ∧ Accounts (AddOrUpdateAccount
                   (mkAccountsFile "user2@example.com" [user1; user2])
                   user1_updated) = before ++ user1_updated :: after)
  ∧ GetActiveAccount (AddOrUpdateAccount
                        (mkAccountsFile "user2@example.com" [user1; user2])
                        user1_updated) = Ok user1_updated.
Proof.
  pose proof (AddOrUpdateAccount_spec
                (mkAccountsFile "user2@example.com" [user1; user2])
                user1_updated) as (Hin & _ & _ & Hactive).
  split.
  - apply Hin. by apply (bool_decide_unpack _).
  - apply Hactive. by apply (bool_decide_unpack _).
Defined.

(** An account whose email is the empty string is stored and marked, but
    the empty marker means "none selected" to [GetActiveAccount], which
    answers with the first entry. *)
Lemma AddOrUpdateAccount_empty_email_counterexample :
  GetActiveAccount
    (AddOrUpdateAccount (mkAccountsFile "user1@example.com" [user1])
       (mkAccount "" "token" "" 0%Z)) = Ok user1
  ∧ ¬ (∀ af account,
         GetActiveAccount (AddOrUpdateAccount af account) = Ok account).
Proof.
  split; [done|].
  intros Hall.
  by specialize (Hall (mkAccountsFile "user1@example.com" [user1])
                      (mkAccount "" "token" "" 0%Z)).
Qed.

(** ** Invariants *)

Lemma active_ok_AddOrUpdateAccount af account :
  active_ok (AddOrUpdateAccount af account).
Proof.
  right.
  destruct (AddOrUpdateAccount_cases af account)
    as [(before & old & after & _ & _ & _ & ->)|[_ ->]];
    unfold emails; simpl; rewrite fmap_app; set_solver.
Qed.

Lemma active_ok_RemoveAccount af email :
  active_ok af → active_ok (RemoveAccount af email).1.
Proof.
  intros Hok. destruct (decide (email ∈ emails af)) as [Hin|Hnot].
  - destruct (RemoveAccount_found af email Hin)
      as (before & a & after & Hsplit & Ha & _ & ->).
    unfold active_ok, emails in *. simpl. case_decide as Hactive.
    + destruct (before ++ after) as [|first rest]; [by left|right].
      simpl. set_solver.
    + destruct Hok as [?|Hok]; [by left|right].
      rewrite Hsplit, fmap_app, fmap_cons, Ha in Hok.
      rewrite fmap_app. set_solver.
  - by rewrite (RemoveAccount_not_found af email Hnot).
Qed.

Lemma active_ok_SetActive af email :
  active_ok af → active_ok (SetActive af email).1.
Proof.
  intros Hok. unfold SetActive.
  destruct (find_email email (Accounts af)) as [[i a]|] eqn:Hfind; [|done].
  right. unfold emails. simpl.
  apply find_email_Some in Hfind as (Hi & <- & _).
  apply list_elem_of_fmap. exists a. split; [done|].
  by apply list_elem_of_lookup_2 in Hi.
Qed.

Lemma reachable_active_ok af : reachable af → active_ok af.
Proof.
  induction 1 as [|af account _ _|af email _ IH|af email _ IH].
  - by left.
  - apply active_ok_AddOrUpdateAccount.
  - by apply active_ok_RemoveAccount.
  - by apply active_ok_SetActive.
Qed.

(** When the marker is empty or names an entry, removing the only account
    clears it. *)
Lemma RemoveAccount_last af email af' :
  active_ok af →
  RemoveAccount af email = (af', None) →
  AccountCount af = 1 →
  Accounts af' = [] ∧ Active af' = "".
Proof.
  intros Hok Hrm Hcount. destruct (decide (email ∈ emails af)) as [Hin|Hnot].
  - destruct (RemoveAccount_found af email Hin)
      as (before & a & after & Hsplit & Ha & _ & Hrm').
    rewrite Hrm' in Hrm. injection Hrm as <-. simpl.
    unfold AccountCount in Hcount. rewrite Hsplit, length_app in Hcount.
    simpl in Hcount.
    destruct before; [|simpl in Hcount; lia].
    destruct after; [|simpl in Hcount; lia].
    split; [done|]. simpl. case_decide as Hactive; [done|].
    destruct Hok as [?|Hok]; [done|].
    unfold emails in Hok. rewrite Hsplit in Hok. simpl in Hok. set_solver.
  - by rewrite (RemoveAccount_not_found af email Hnot) in Hrm.
Qed.

(** The three operations keep the marker empty or on an entry. *)
Lemma reachable_from_active_ok start af :
  active_ok start → reachable_from start af → active_ok af.
Proof.
  intros Hstart.
  induction 1 as [|af account _ _|af email _ IH|af email _ IH].
  - done.
  - apply active_ok_AddOrUpdateAccount.
  - by apply active_ok_RemoveAccount.
  - by apply active_ok_SetActive.
Qed.

(** C1, as the code has it.  For every store whose active marker is empty
    or is the email of an entry (the empty store is one): every store the
    account-store operations reach from it satisfies I3; and when
    [RemoveAccount] removes its only account, [HasAccounts] is false
    afterwards and the active marker is the empty string. *)
Theorem I3_reachable_from (start : AccountsFile) :
  active_ok start →
  (∀ af, reachable_from start af → I3 af)
  ∧ (∀ email af',
       RemoveAccount start email = (af', None) →
       AccountCount start = 1 →
       HasAccounts af' = false ∧ Active af' = "").
Proof.
  intros Hstart. split.
  - intros af Hreach Hempty.
    destruct (reachable_from_active_ok start af Hstart Hreach) as [?|Hok];
      [done|].
    unfold emails in Hok. rewrite Hempty in Hok. set_solver.
  - intros email af' Hrm Hcount.
    destruct (RemoveAccount_last start email af' Hstart Hrm Hcount)
      as [Hempty ?].
    split; [|done]. unfold HasAccounts. by rewrite Hempty.
Qed.

(** C1 on a store with one account and no marker, as a file without the
    [active] key gives it, and the removal of that account: the store the
    removal reaches is empty and satisfies I3, and the removal is one the
    second part speaks of. *)
Lemma I3_reachable_from_witness :
  I3 (RemoveAccount (mkAccountsFile "" [user1]) "user1@example.com").1
  ∧ Accounts (RemoveAccount (mkAccountsFile "" [user1]) "user1@example.com").1
    = []
  ∧ HasAccounts
      (RemoveAccount (mkAccountsFile "" [user1]) "user1@example.com").1
    = false
  ∧ Active (RemoveAccount (mkAccountsFile "" [user1]) "user1@example.com").1
    = "".
Proof.
  split_and!.
  - apply (proj1 (I3_reachable_from (mkAccountsFile "" [user1])
                    (or_introl eq_refl))).
    apply from_remove, from_start.
  - reflexivity.
  - apply (proj2 (I3_reachable_from (mkAccountsFile "" [user1])
                    (or_introl eq_refl))
             "user1@example.com"); reflexivity.
  - apply (proj2 (I3_reachable_from (mkAccountsFile "" [user1])
                    (or_introl eq_refl))
             "user1@example.com"); reflexivity.
Defined.

(** A store as a hand-edited file can give it: one account, and a marker
    that names another.  Removing the account leaves the marker. *)
Lemma RemoveAccount_stale_marker_counterexample :
  I1 (mkAccountsFile "user1@example.com" [user2])
  ∧ I3 (mkAccountsFile "user1@example.com" [user2])
  ∧ AccountCount (mkAccountsFile "user1@example.com" [user2]) = 1
  ∧ RemoveAccount (mkAccountsFile "user1@example.com" [user2])
      "user2@example.com"
    = (mkAccountsFile "user1@example.com" [], None)
  ∧ ¬ I3 (mkAccountsFile "user1@example.com" [])
  ∧ ¬ (∀ af email af',
         RemoveAccount af email = (af', None) →
         AccountCount af = 1 →
         HasAccounts af' = false ∧ Active af' = "").
Proof.
  split_and!; [by apply NoDup_singleton|done|done|done| |].
  - intros Hi3. by specialize (Hi3 eq_refl).
  - intros Hall.
    by destruct (Hall (mkAccountsFile "user1@example.com" [user2])
                   "user2@example.com"
                   (mkAccountsFile "user1@example.com" [])
                   eq_refl eq_refl) as [_ ?].
Qed.

(** [AddOrUpdateAccount] leaves the emails as they were when the email was
    known, and adds the one new email at the end otherwise. *)
Lemma emails_AddOrUpdateAccount af account :
  (Email account ∈ emails af
   ∧ emails (AddOrUpdateAccount af account) = emails af)
  ∨ ((Email account ∉ emails af)
     ∧ emails (AddOrUpdateAccount af account) = emails af ++ [Email account]).
Proof.
  destruct (AddOrUpdateAccount_cases af account)
    as [(before & old & after & Hsplit & Hold & _ & ->)|[Hnot ->]];
    unfold emails in *; simpl.
  - left. rewrite Hsplit, !fmap_app, !fmap_cons, Hold. split; [|done].
    set_solver.
  - right. by rewrite fmap_app.
Qed.

Lemma I1_AddOrUpdateAccount af account :
  I1 af → I1 (AddOrUpdateAccount af account).
Proof.
  unfold I1. intros Hnodup.
  destruct (emails_AddOrUpdateAccount af account) as [[_ ->]|[Hnot ->]];
    [done|].
  apply NoDup_app. split_and!; [done|set_solver|apply NoDup_singleton].
Qed.

Lemma I1_RemoveAccount af email : I1 af → I1 (RemoveAccount af email).1.
Proof.
  unfold I1. intros Hnodup.
  destruct (decide (email ∈ emails af)) as [Hin|Hnot].
  - destruct (RemoveAccount_found af email Hin)
      as (before & a & after & Hsplit & _ & _ & ->).
    unfold emails in *. simpl.
    rewrite Hsplit, fmap_app, fmap_cons in Hnodup. rewrite fmap_app.
    apply NoDup_app in Hnodup as (? & Hdisj & [_ ?]%NoDup_cons).
    apply NoDup_app. split_and!; [done| |done].
    intros x Hx Hx'. apply (Hdisj x Hx). by right.
  - by rewrite (RemoveAccount_not_found af email Hnot).
Qed.

Lemma I1_SetActive af email : I1 af → I1 (SetActive af email).1.
Proof.
  unfold SetActive. by destruct (find_email email (Accounts af)).
Qed.

(** The emails held after a run of additions are without repetition and
    are the emails held before together with those added. *)
Lemma foldl_AddOrUpdateAccount accounts :
  ∀ af, I1 af →
    I1 (foldl AddOrUpdateAccount af accounts)
    ∧ list_to_set (emails (foldl AddOrUpdateAccount af accounts))
      =@{gset string} list_to_set (emails af) ∪ list_to_set (Email <$> accounts).
Proof.
  induction accounts as [|account accounts IH]; intros af Hnodup; simpl.
  - split; [done|]. set_solver.
  - destruct (IH (AddOrUpdateAccount af account)) as [? ->];
      [by apply I1_AddOrUpdateAccount|].
    split; [done|].
    destruct (emails_AddOrUpdateAccount af account) as [[Hin ->]|[_ ->]].
    + set_solver.
    + rewrite list_to_set_app_L. set_solver.
Qed.

Lemma AccountCount_emails af : AccountCount af = length (emails af).
Proof. unfold AccountCount, emails. by rewrite length_fmap. Qed.

(** C6.  I1 is preserved by [AddOrUpdateAccount], [RemoveAccount] and
    [SetActive] (the queries change nothing).  After any sequence of
    [AddOrUpdateAccount] calls from the empty store I1 holds and
    [AccountCount] is the number of distinct emails added; one more call
    with an email already added leaves the count as it is. *)
Theorem I1_preserved_and_count :
  (∀ af account, I1 af → I1 (AddOrUpdateAccount af account))
  ∧ (∀ af email, I1 af → I1 (RemoveAccount af email).1)
  ∧ (∀ af email, I1 af → I1 (SetActive af email).1)
  ∧ (∀ accounts,
       I1 (add_all accounts)
       ∧ AccountCount (add_all accounts) = distinct_emails accounts)
  ∧ (∀ accounts account,
       Email account ∈ Email <$> accounts →
       AccountCount (AddOrUpdateAccount (add_all accounts) account)
       = AccountCount (add_all accounts)).
Proof.
  assert (I1 empty_store) as Hempty by apply NoDup_nil_2.
  split_and!.
  - apply I1_AddOrUpdateAccount.
  - apply I1_RemoveAccount.
  - apply I1_SetActive.
  - intros accounts.
    destruct (foldl_AddOrUpdateAccount accounts empty_store Hempty)
      as [Hnodup Hset].
    split; [done|].
    unfold distinct_emails. rewrite AccountCount_emails.
    rewrite <- (size_list_to_set (C:=gset string)) by done.
    unfold add_all. rewrite Hset. f_equal. set_solver.
  - intros accounts account Hin.
    destruct (foldl_AddOrUpdateAccount accounts empty_store Hempty)
      as [_ Hset].
    rewrite !AccountCount_emails.
    destruct (emails_AddOrUpdateAccount (add_all accounts) account)
      as [[_ ->]|[Hnot _]]; [done|].
    exfalso. apply Hnot.
    apply (elem_of_list_to_set (C:=gset string)).
    unfold add_all. rewrite Hset. set_solver.
Qed.

(** C6 on the additions of the tests: three calls, two emails. *)
Lemma I1_preserved_and_count_witness :
  I1 (AddOrUpdateAccount empty_store user1)
  ∧ AccountCount (add_all [user1; user2; user1_updated]) = 2
  ∧ AccountCount (AddOrUpdateAccount (add_all [user1; user2]) user1_updated)
    = AccountCount (add_all [user1; user2]).
Proof.
  pose proof I1_preserved_and_count as (Hadd & _ & _ & Hcount & Hseen).
  split_and!.
  - apply Hadd. apply NoDup_nil_2.
  - by rewrite (proj2 (Hcount [user1; user2; user1_updated])).
  - apply Hseen. by apply (bool_decide_unpack _).
Defined.

(** ** Persistence layer *)

Section PersistenceProperties.

Context {Doc Legacy : Type} (E : Env Doc Legacy).

Implicit Types (w : World Doc Legacy) (configDir : string).

(** A missing file is what [os.Open] reports as the not-exist error. *)
Lemma os_Open_missing path w :
  files w !! path = None →
  ∃ e, os_Open E path w = Err e ∧ is_not_exist e = true.
Proof. intros Hnone. unfold os_Open. rewrite Hnone. eauto. Qed.

(** Whatever failure the load meets first is the one [LoadAccounts]
    decides on: absorbed into an empty store if it is the not-exist error,
    returned otherwise. *)
Lemma LoadAccounts_failure configDir w e :
  load_failure E configDir w e →
  LoadAccounts E configDir w = if is_not_exist e then Ok empty_store else Err e.
Proof.
  destruct 1 as [e Hlock|unlock e Hlock Hopen|unlock f e Hlock Hopen Hdec
                 |unlock f af e Hlock Hopen Hdec Hclose
                 |f af e Hlock Hopen Hdec Hclose];
    unfold LoadAccounts, unmarshalAccounts, lock_path_of in *;
    rewrite Hlock; simpl; [done|rewrite Hopen..]; simpl; [done|rewrite Hdec..];
    simpl; [done|rewrite Hclose..]; done.
Qed.

(** A load that meets no failure returns what the decoder produced. *)
Lemma LoadAccounts_clean configDir w f af :
  filemu_RLock E (lock_path_of E configDir) = Ok None →
  os_Open E (AccountsFilePath E configDir) w = Ok f →
  yaml_Decode E (content f) = Ok af →
  Close f = None →
  LoadAccounts E configDir w = Ok af.
Proof.
  unfold LoadAccounts, unmarshalAccounts, lock_path_of.
  intros -> -> -> ->. done.
Qed.

(** Every load either meets a failure or is clean. *)
Lemma load_failure_or_clean configDir w :
  (∃ e, load_failure E configDir w e)
  ∨ (∃ f af,
        filemu_RLock E (lock_path_of E configDir) = Ok None
        ∧ os_Open E (AccountsFilePath E configDir) w = Ok f
        ∧ yaml_Decode E (content f) = Ok af
        ∧ Close f = None).
Proof.
  destruct (filemu_RLock E (lock_path_of E configDir)) as [unlock|e] eqn:Hlock;
    [|left; exists e; by apply fail_rlock].
  destruct (os_Open E (AccountsFilePath E configDir) w) as [f|e] eqn:Hopen;
    [|left; exists e; by eapply fail_open].
  destruct (yaml_Decode E (content f)) as [af|e] eqn:Hdec;
    [|left; exists e; by eapply fail_decode].
  destruct (Close f) as [e|] eqn:Hclose;
    [left; exists e; by eapply fail_close|].
  destruct unlock as [e|]; [left; exists e; by eapply fail_unlock|].
  right. eauto 10.
Qed.

(** C8, as the code has it.  When the accounts file of the directory does
    not exist and the shared lock is acquired, [LoadAccounts] returns a
    fresh empty store without error.  The failures it absorbs are the
    not-exist errors and no other: any other failure of the load (lock,
    open, decode, close, unlock) is returned, and a store is returned only
    by a clean load or for an absorbed not-exist error. *)
Theorem LoadAccounts_missing_file (configDir : string) (w : World Doc Legacy) :
  (files w !! AccountsFilePath E configDir = None →
   ∀ unlock, filemu_RLock E (lock_path_of E configDir) = Ok unlock →
     LoadAccounts E configDir w = Ok empty_store
     ∧ AccountCount empty_store = 0
     ∧ HasAccounts empty_store = false)
  ∧ (∀ e, load_failure E configDir w e →
       LoadAccounts E configDir w
       = if is_not_exist e then Ok empty_store else Err e)
  ∧ (∀ af, LoadAccounts E configDir w = Ok af →
       (∃ e, load_failure E configDir w e ∧ is_not_exist e = true
             ∧ af = empty_store)
       ∨ (∃ f, filemu_RLock E (lock_path_of E configDir) = Ok None
               ∧ os_Open E (AccountsFilePath E configDir) w = Ok f
               ∧ yaml_Decode E (content f) = Ok af
               ∧ Close f = None)).
Proof.
  split_and!.
  - intros Hnone unlock Hlock.
    destruct (os_Open_missing _ _ Hnone) as (e & Hopen & Hnot).
    rewrite (LoadAccounts_failure configDir w e) by by eapply fail_open.
    by rewrite Hnot.
  - apply LoadAccounts_failure.
  - intros af Hload.
    destruct (load_failure_or_clean configDir w)
      as [[e Hfail]|(f & af' & Hlock & Hopen & Hdec & Hclose)].
    + left. exists e. rewrite (LoadAccounts_failure _ _ _ Hfail) in Hload.
      destruct (is_not_exist e); [|done]. by injection Hload as <-.
    + right. exists f.
      rewrite (LoadAccounts_clean _ _ _ _ Hlock Hopen Hdec Hclose) in Hload.
      by injection Hload as <-.
Qed.

(** A successful save leaves the encoded store, whole, in the accounts
    file. *)
Lemma SaveAccounts_success configDir af w w' :
  SaveAccounts E configDir af w = (w', None) →
  ∃ data, yaml_Marshal E af = Ok data
          ∧ files w' !! AccountsFilePath E configDir = Some data.
Proof.
  unfold SaveAccounts, marshalAccounts.
  destruct (filemu_Lock E _) as [unlock|e]; [|done].
  destruct (yaml_Marshal E af) as [data|e]; [|done].
  unfold os_WriteFile. destruct (write_fault E _); [done|]. simpl.
  intros [= <- _]. exists data. split; [done|]. simpl.
  apply lookup_insert_eq.
Qed.



(** ** Sync bridge *)

(** A setter call is logged, whatever it returns, and touches no file of
    the accounts store. *)
Lemma invoke_log c w w' err :
  invoke E c w = (w', err) →
  setter_log w' = setter_log w ++ [c] ∧ files w' = files w.
Proof.
  unfold invoke.
  destruct c as [path token|path token|path t];
    [destruct (set_access_token E path token (legacy w))
    |destruct (set_metrics_token E path token (legacy w))
    |destruct (set_last_login E path t (legacy w))];
    by intros [= <- _].
Qed.

(** The setters run by [invoke_in_order] are logged in order; a failure is
    that of the last call logged, made in the world the calls before it
    left, and no later call is made. *)
Lemma invoke_in_order_log calls :
  ∀ w w' err,
    invoke_in_order E calls w = (w', err) →
    match err with
    | None => setter_log w' = setter_log w ++ calls
    | Some e =>
      ∃ made c rest w1,
        calls = made ++ c :: rest
        ∧ invoke_in_order E made w = (w1, None)
        ∧ invoke E c w1 = (w', Some e)
        ∧ setter_log w' = setter_log w ++ made ++ [c]
    end.
Proof.
  induction calls as [|c calls IH]; intros w w' err; simpl.
  - intros [= <- <-]. by rewrite app_nil_r.
  - destruct (invoke E c w) as [w1 [e|]] eqn:Hc.
    + intros [= <- <-]. exists [], c, calls, w. split_and!; [done..|].
      by apply invoke_log in Hc as [-> _].
    + intros Hrest. specialize (IH _ _ _ Hrest).
      apply invoke_log in Hc as Hlog. destruct Hlog as [Hlog _].
      destruct err as [e|].
      * destruct IH as (made & c' & rest & w2 & -> & Hmade & Hfail & Hlog').
        exists (c :: made), c', rest, w2. split_and!; [done| |done|].
        -- simpl. by rewrite Hc.
        -- rewrite Hlog', Hlog. by rewrite <- !app_assoc.
      * rewrite IH, Hlog. by rewrite <- app_assoc.
Qed.

(** C9.  On an empty loaded store [SyncActiveAccountToConfig] returns nil
    and leaves the world as it is.  On a non-empty one it takes the account
    [GetActiveAccount] resolves and makes the prescribed setter calls in
    order (access token; metrics token if non-empty; last login if
    non-zero), stopping at the first that fails and returning its error:
    the calls before it have had their effect and the calls after it are
    not made. *)
Theorem SyncActiveAccountToConfig_spec (configDir : string)
    (w : World Doc Legacy) :
  (∀ af, LoadAccounts E configDir w = Ok af → Accounts af = [] →
     SyncActiveAccountToConfig E configDir w = (w, None))
  ∧ (∀ af, LoadAccounts E configDir w = Ok af → Accounts af ≠ [] →
       ∃ account,
         GetActiveAccount af = Ok account
         ∧ SyncActiveAccountToConfig E configDir w
           = invoke_in_order E
               (sync_calls (filepath_Join E configDir (FileName E)) account) w)
  ∧ (∀ calls w0 w' err,
       invoke_in_order E calls w0 = (w', err) →
       match err with
       | None => setter_log w' = setter_log w0 ++ calls
       | Some e =>
         ∃ made c rest w1,
           calls = made ++ c :: rest
           ∧ invoke_in_order E made w0 = (w1, None)
           ∧ invoke E c w1 = (w', Some e)
           ∧ setter_log w' = setter_log w0 ++ made ++ [c]
       end).
Proof.
  split_and!.
  - intros af Hload Hempty. unfold SyncActiveAccountToConfig, HasAccounts.
    by rewrite Hload, Hempty.
  - intros af Hload Hne. unfold SyncActiveAccountToConfig, HasAccounts.
    rewrite Hload.
    destruct (GetActiveAccount af) as [account|e] eqn:Hactive.
    + exists account. split; [done|].
      rewrite bool_decide_eq_true_2
        by (destruct (Accounts af); simpl; [done|lia]).
      simpl. unfold sync_calls, and_then, when, SetAccessToken,
        SetMetricsToken, SetLastLogin, IsZero. simpl.
      destruct (invoke E (CallSetAccessToken _ _) w) as [w1 [e|]]; [done|].
      destruct (decide (MetricsToken account = "")) as [Hm|Hm];
        [rewrite bool_decide_eq_true_2 by done
        |rewrite bool_decide_eq_false_2 by done]; simpl;
        destruct (decide (LastLogin account = 0%Z)) as [Ht|Ht];
        [rewrite bool_decide_eq_true_2 by done
        |rewrite bool_decide_eq_false_2 by done
        |rewrite bool_decide_eq_true_2 by done
        |rewrite bool_decide_eq_false_2 by done]; simpl.
      * done.
      * by destruct (invoke E (CallSetLastLogin _ _) w1) as [w2 [e|]].
      * by destruct (invoke E (CallSetMetricsToken _ _) w1) as [w2 [e|]].
      * destruct (invoke E (CallSetMetricsToken _ _) w1) as [w2 [e|]]; [done|].
        by destruct (invoke E (CallSetLastLogin _ _) w2) as [w3 [e|]].
    + exfalso. unfold GetActiveAccount in Hactive.
      destruct (Accounts af) as [|first rest]; [done|].
      case_decide; [done|]. by destruct (find_email _ _) as [[? ?]|].
  - intros calls. apply invoke_in_order_log.
Qed.

End PersistenceProperties.

(** ** The concrete environment *)

(** C8 in the environment where everything succeeds: no file gives the
    empty store, a malformed document gives the decoder's error. *)
Lemma LoadAccounts_missing_file_witness :
  (LoadAccounts ok_env "/home/fly" no_files = Ok empty_store
   ∧ AccountCount empty_store = 0
   ∧ HasAccounts empty_store = false)
  ∧ LoadAccounts ok_env "/home/fly" malformed_world
    = Err (ErrExternal false "yaml: unmarshal errors").
Proof.
  split.
  - apply (LoadAccounts_missing_file ok_env "/home/fly" no_files)
      with (unlock := None); reflexivity.
  - apply (proj1 (proj2 (LoadAccounts_missing_file ok_env "/home/fly"
                           malformed_world))
             (ErrExternal false "yaml: unmarshal errors")).
    apply fail_decode
      with (unlock := None)
           (f := {| content := YamlDoc.Str "not a mapping"; Close := None |});
      reflexivity.
Defined.

(** The accounts file does not exist, and neither can the lock file be
    created: the load fails with the lock's error. *)
Lemma LoadAccounts_lock_failure_counterexample :
  files no_files !! AccountsFilePath read_only_env "/home/fly" = None
  ∧ LoadAccounts read_only_env "/home/fly" no_files
    = Err (ErrExternal false "open flyctl.accounts.lock: permission denied")
  ∧ ¬ (∀ (E : Env YamlDoc.Node LegacyConfig) configDir w,
         files w !! AccountsFilePath E configDir = None →
         LoadAccounts E configDir w = Ok empty_store).
Proof.
  split_and!; [reflexivity..|].
  intros Hall.
  by specialize (Hall read_only_env "/home/fly" no_files eq_refl).
Qed.



(** C9 with no accounts file, and with the saved store when the
    metrics-token setter fails. *)
Lemma SyncActiveAccountToConfig_spec_witness :
  SyncActiveAccountToConfig ok_env "/home/fly" no_files = (no_files, None)
  ∧ ∃ account,
      GetActiveAccount saved_store = Ok account
      ∧ SyncActiveAccountToConfig metrics_failing_env "/home/fly" saved_world
        = invoke_in_order metrics_failing_env
            (sync_calls "/home/fly/config.yml" account) saved_world.
Proof.
  split.
  - apply (proj1 (SyncActiveAccountToConfig_spec ok_env "/home/fly" no_files)
             empty_store); reflexivity.
  - apply (proj1 (proj2 (SyncActiveAccountToConfig_spec metrics_failing_env
                           "/home/fly" saved_world))
             saved_store); [reflexivity|done].
Defined.

(** The sync on the saved store: all three setters when they succeed; the
    access token kept, the last login never set, when the metrics-token
    setter fails. *)
Example sync_saved_store :
  SyncActiveAccountToConfig ok_env "/home/fly" saved_world
  = (mkWorld (files saved_world) (modes saved_world)
       (mkLegacyConfig "token1" "metrics1" 63871322400000000000%Z)
       [CallSetAccessToken "/home/fly/config.yml" "token1";
        CallSetMetricsToken "/home/fly/config.yml" "metrics1";
        CallSetLastLogin "/home/fly/config.yml" 63871322400000000000%Z],
     None)
  ∧ SyncActiveAccountToConfig metrics_failing_env "/home/fly" saved_world
    = (mkWorld (files saved_world) (modes saved_world)
         (mkLegacyConfig "token1" "" 0%Z)
         [CallSetAccessToken "/home/fly/config.yml" "token1";
          CallSetMetricsToken "/home/fly/config.yml" "metrics1"],
       Some (ErrExternal false "config.yml: permission denied")).
Proof. split; reflexivity. Qed.

(** * Further properties of the account store *)

(** ** Lookups *)

(** The entry the loop finds, without its index, in recursive form. *)
Lemma find_email_cons email a accounts :
  snd <$> find_email email (a :: accounts)
  = if decide (Email a = email) then Some a
    else snd <$> find_email email accounts.
Proof.
  unfold find_email. simpl. case_decide; [done|].
  by destruct (list_find _ accounts) as [[? ?]|].
Qed.

(** Entries with another email do not matter to the lookup of an email. *)
Lemma find_email_skip email before x after :
  Email x ≠ email →
  snd <$> find_email email (before ++ x :: after)
  = snd <$> find_email email (before ++ after).
Proof.
  intros Hx. induction before as [|b before IH].
  - rewrite !app_nil_l, find_email_cons. by rewrite decide_False.
  - rewrite <- !app_comm_cons, !find_email_cons. by rewrite IH.
Qed.

Lemma GetAccount_find af email :
  GetAccount af email
  = match snd <$> find_email email (Accounts af) with
    | Some a => Ok a
    | None => Err ErrAccountNotFound
    end.
Proof.
  unfold GetAccount. by destruct (find_email _ _) as [[? ?]|].
Qed.

Lemma GetAccount_middle af email before a after :
  Accounts af = before ++ a :: after →
  Email a = email →
  email ∉ Email <$> before →
  GetAccount af email = Ok a.
Proof.
  intros Hsplit Ha Hbefore. unfold GetAccount.
  by rewrite Hsplit, (find_email_middle email before a after).
Qed.

(** X1.  [GetAccount] returns [ErrAccountNotFound] exactly when no entry
    carries the email, and otherwise the first entry that carries it. *)
Theorem GetAccount_spec (af : AccountsFile) (email : string) :
  (GetAccount af email = Err ErrAccountNotFound ↔ email ∉ emails af)
  ∧ (∀ a, GetAccount af email = Ok a
          ↔ ∃ before after,
              Accounts af = before ++ a :: after
              ∧ Email a = email
              ∧ (email ∉ Email <$> before)).
Proof.
  unfold GetAccount, emails. split.
  - rewrite <- find_email_None.
    by destruct (find_email email (Accounts af)) as [[? ?]|].
  - intros a. split.
    + destruct (find_email email (Accounts af)) as [[i b]|] eqn:Hfind; [|done].
      intros [= ->].
      destruct (find_email_split _ _ _ _ Hfind) as [Hsplit Hbefore].
      apply find_email_Some in Hfind as (_ & ? & _). eauto 10.
    + intros (before & after & -> & Ha & Hbefore).
      by rewrite (find_email_middle email before a after).
Qed.

(** X2.  After [AddOrUpdateAccount] the account is what [GetAccount]
    returns for its email, with all its fields, whatever the store held;
    the lookup of any other email is as before. *)
Theorem GetAccount_AddOrUpdateAccount (af : AccountsFile) (account : Account) :
  GetAccount (AddOrUpdateAccount af account) (Email account) = Ok account
  ∧ ∀ email, email ≠ Email account →
      GetAccount (AddOrUpdateAccount af account) email = GetAccount af email.
Proof.
  destruct (AddOrUpdateAccount_cases af account)
    as [(before & old & after & Hsplit & Hold & Hbefore & ->)|[Hnot ->]].
  - split.
    + by apply (GetAccount_middle _ _ before account after).
    + intros email Hne. rewrite !GetAccount_find. simpl.
      rewrite Hsplit, !find_email_skip; [done|congruence|congruence].
  - split.
    + by apply (GetAccount_middle _ _ (Accounts af) account []).
    + intros email Hne. rewrite !GetAccount_find. simpl.
      rewrite find_email_skip by congruence. by rewrite app_nil_r.
Qed.

(** X3.  Of two [AddOrUpdateAccount] calls with the same email the second
    decides: the store is the one the second call alone would leave.  In
    particular a repeated call changes nothing. *)
Theorem AddOrUpdateAccount_overwrite (af : AccountsFile) (a1 a2 : Account) :
  Email a1 = Email a2 →
  AddOrUpdateAccount (AddOrUpdateAccount af a1) a2 = AddOrUpdateAccount af a2.
Proof.
  intros Heq.
  destruct (AddOrUpdateAccount_cases af a1)
    as [(before & old & after & Hsplit & Hold & Hbefore & ->)|[Hnot ->]];
    unfold AddOrUpdateAccount; simpl.
  - rewrite Hsplit, <- Heq.
    rewrite (find_email_middle _ before a1 after) by done.
    rewrite (find_email_middle _ before old after) by done.
    f_equal. rewrite !insert_app_r_alt by lia.
    by rewrite Nat.sub_diag.
  - rewrite <- Heq.
    rewrite (find_email_middle _ (Accounts af) a1 []) by done.
    apply find_email_None in Hnot as ->.
    f_equal. rewrite insert_app_r_alt by lia.
    by rewrite Nat.sub_diag.
Qed.

Lemma AddOrUpdateAccount_overwrite_witness :
  AddOrUpdateAccount (AddOrUpdateAccount empty_store user1) user1_updated
  = AddOrUpdateAccount empty_store user1_updated.
Proof.
  apply (AddOrUpdateAccount_overwrite empty_store user1 user1_updated).
  reflexivity.
Defined.

(** X4.  [SetActive] on an email the store holds sets the marker and
    leaves the accounts alone; if the email is not the empty string,
    [GetActiveAccount] then returns the account [GetAccount] finds for
    it. *)
Theorem SetActive_found (af : AccountsFile) (email : string) :
  email ∈ emails af →
  SetActive af email = ({| Active := email; Accounts := Accounts af |}, None)
  ∧ (email ≠ "" →
     GetActiveAccount (SetActive af email).1 = GetAccount af email).
Proof.
  intros [[i a] Hfind]%find_email_elem. unfold SetActive. rewrite Hfind.
  split; [done|]. intros Hne. unfold GetActiveAccount, GetAccount. simpl.
  destruct (Accounts af) as [|first rest]; [done|].
  rewrite decide_False by done. by rewrite Hfind.
Qed.

Lemma SetActive_found_witness :
  SetActive (mkAccountsFile "user1@example.com" [user1; user2])
    "user2@example.com"
  = (mkAccountsFile "user2@example.com" [user1; user2], None)
  ∧ ("user2@example.com" ≠ "" →
     GetActiveAccount
       (SetActive (mkAccountsFile "user1@example.com" [user1; user2])
          "user2@example.com").1
     = GetAccount (mkAccountsFile "user1@example.com" [user1; user2])
         "user2@example.com").
Proof.
  apply (SetActive_found (mkAccountsFile "user1@example.com" [user1; user2])
           "user2@example.com").
  by apply (bool_decide_unpack _).
Defined.

(** ** Removal *)

(** X5.  A successful [RemoveAccount] takes exactly one entry away.  In a
    store without duplicate emails the email is gone afterwards: a lookup
    and a second removal both return [ErrAccountNotFound]. *)
Theorem RemoveAccount_once (af : AccountsFile) (email : string) :
  email ∈ emails af →
  (RemoveAccount af email).2 = None
  ∧ AccountCount af = S (AccountCount (RemoveAccount af email).1)
  ∧ (I1 af →
     (email ∉ emails (RemoveAccount af email).1)
     ∧ GetAccount (RemoveAccount af email).1 email = Err ErrAccountNotFound
     ∧ RemoveAccount (RemoveAccount af email).1 email
       = ((RemoveAccount af email).1, Some ErrAccountNotFound)).
Proof.
  intros (before & a & after & Hsplit & Ha & Hbefore & ->)%RemoveAccount_found.
  simpl. split_and!; [done| |].
  - unfold AccountCount. simpl. rewrite Hsplit, !length_app. simpl. lia.
  - unfold I1, emails. rewrite Hsplit, fmap_app, fmap_cons, Ha.
    intros (_ & Hdisj & [Hafter _]%NoDup_cons)%NoDup_app.
    assert (email ∉ Email <$> before ++ after) as Hgone.
    { rewrite fmap_app. intros [?|?]%elem_of_app; [by apply Hbefore|done]. }
    split_and!; [done| |].
    + rewrite GetAccount_find. simpl.
      by apply find_email_None in Hgone as ->.
    + by apply RemoveAccount_not_found.
Qed.

Lemma RemoveAccount_once_witness :
  (RemoveAccount (mkAccountsFile "user1@example.com" [user1; user2])
     "user1@example.com").2 = None
  ∧ AccountCount (mkAccountsFile "user1@example.com" [user1; user2])
    = S (AccountCount
           (RemoveAccount (mkAccountsFile "user1@example.com" [user1; user2])
              "user1@example.com").1)
  ∧ (I1 (mkAccountsFile "user1@example.com" [user1; user2]) →
     ("user1@example.com"
      ∉ emails (RemoveAccount
                  (mkAccountsFile "user1@example.com" [user1; user2])
                  "user1@example.com").1)
     ∧ GetAccount
         (RemoveAccount (mkAccountsFile "user1@example.com" [user1; user2])
            "user1@example.com").1 "user1@example.com"
       = Err ErrAccountNotFound
     ∧ RemoveAccount
         (RemoveAccount (mkAccountsFile "user1@example.com" [user1; user2])
            "user1@example.com").1 "user1@example.com"
       = ((RemoveAccount (mkAccountsFile "user1@example.com" [user1; user2])
             "user1@example.com").1, Some ErrAccountNotFound)).
Proof.
  apply (RemoveAccount_once
           (mkAccountsFile "user1@example.com" [user1; user2])
           "user1@example.com").
  by apply (bool_decide_unpack _).
Defined.

(** X6.  [RemoveAccount] does not disturb the lookup of any other email,
    whether it removes an entry or not. *)
Theorem GetAccount_RemoveAccount (af : AccountsFile) (email other : string) :
  other ≠ email →
  GetAccount (RemoveAccount af email).1 other = GetAccount af other.
Proof.
  intros Hne. destruct (decide (email ∈ emails af)) as [Hin|Hnot].
  - destruct (RemoveAccount_found af email Hin)
      as (before & a & after & Hsplit & Ha & _ & ->).
    rewrite !GetAccount_find. simpl.
    rewrite Hsplit, find_email_skip; [done|congruence].
  - by rewrite (RemoveAccount_not_found af email Hnot).
Qed.

Lemma GetAccount_RemoveAccount_witness :
  GetAccount
    (RemoveAccount (mkAccountsFile "user1@example.com" [user1; user2])
       "user1@example.com").1 "user2@example.com"
  = GetAccount (mkAccountsFile "user1@example.com" [user1; user2])
      "user2@example.com".
Proof.
  apply (GetAccount_RemoveAccount
           (mkAccountsFile "user1@example.com" [user1; user2])
           "user1@example.com" "user2@example.com").
  by apply (bool_decide_unpack _).
Defined.

(** X7.  When the account removed carried the active marker and accounts
    remain, [GetActiveAccount] afterwards returns the first of them. *)
Theorem GetActiveAccount_RemoveAccount (af : AccountsFile) (email : string)
    (first : Account) (rest : list Account) :
  email ∈ emails af →
  Active af = email →
  Accounts (RemoveAccount af email).1 = first :: rest →
  GetActiveAccount (RemoveAccount af email).1 = Ok first.
Proof.
  intros (before & a & after & Hsplit & Ha & _ & ->)%RemoveAccount_found
         Hactive. simpl.
  intros Hrest. unfold GetActiveAccount. simpl.
  rewrite decide_True by done. rewrite Hrest.
  case_decide; [done|].
  unfold find_email. simpl. by rewrite decide_True.
Qed.

Lemma GetActiveAccount_RemoveAccount_witness :
  GetActiveAccount
    (RemoveAccount (mkAccountsFile "user1@example.com" [user1; user2])
       "user1@example.com").1 = Ok user2.
Proof.
  apply (GetActiveAccount_RemoveAccount
           (mkAccountsFile "user1@example.com" [user1; user2])
           "user1@example.com" user2 []).
  - by apply (bool_decide_unpack _).
  - reflexivity.
  - reflexivity.
Defined.

(** ** The invariants of reachable stores *)

Lemma I2_AddOrUpdateAccount af account : I2 (AddOrUpdateAccount af account).
Proof.
  intros _.
  destruct (AddOrUpdateAccount_cases af account)
    as [(before & old & after & _ & _ & _ & ->)|[_ ->]];
    unfold emails; simpl; rewrite fmap_app; set_solver.
Qed.

Lemma I2_RemoveAccount af email : I2 af → I2 (RemoveAccount af email).1.
Proof.
  intros Hi2. destruct (decide (email ∈ emails af)) as [Hin|Hnot].
  - destruct (RemoveAccount_found af email Hin)
      as (before & a & after & Hsplit & Ha & _ & ->).
    unfold I2, emails in *. simpl. intros Hrest. case_decide as Hactive.
    + destruct (before ++ after) as [|first rest]; [done|]. simpl. set_solver.
    + rewrite Hsplit, fmap_app, fmap_cons, Ha in Hi2. rewrite fmap_app.
      assert (before ++ a :: after ≠ []) as Hne by by destruct before.
      specialize (Hi2 Hne). set_solver.
  - by rewrite (RemoveAccount_not_found af email Hnot).
Qed.

Lemma I2_SetActive af email : I2 af → I2 (SetActive af email).1.
Proof.
  intros Hi2. unfold SetActive.
  destruct (find_email email (Accounts af)) as [[i a]|] eqn:Hfind; [|done].
  intros _. unfold emails. simpl.
  apply find_email_Some in Hfind as (Hi & <- & _).
  apply list_elem_of_fmap. exists a. split; [done|].
  by apply list_elem_of_lookup_2 in Hi.
Qed.

(** X8.  Every store reached from the empty store by the account-store
    operations has no two entries with one email (I1) and, where it has an
    account, a marker that is the email of one (I2).  When that marker is
    not the empty string, [GetActiveAccount] returns the account
    [GetAccount] finds for it. *)
Theorem reachable_invariants (af : AccountsFile) :
  reachable af →
  I1 af
  ∧ I2 af
  ∧ (Active af ≠ "" →
     ∃ a, GetActiveAccount af = Ok a
          ∧ Email a = Active af
          ∧ GetAccount af (Active af) = Ok a).
Proof.
  intros Hreach.
  assert (I1 af ∧ I2 af) as [Hi1 Hi2].
  { induction Hreach as [|af account _ [? ?]|af email _ [? ?]
                         |af email _ [? ?]].
    - split; [apply NoDup_nil_2|by intros []].
    - split; [by apply I1_AddOrUpdateAccount|apply I2_AddOrUpdateAccount].
    - split; [by apply I1_RemoveAccount|by apply I2_RemoveAccount].
    - split; [by apply I1_SetActive|by apply I2_SetActive]. }
  split_and!; [done..|].
  intros Hne. pose proof (reachable_active_ok af Hreach) as [?|Hin]; [done|].
  destruct (find_email_elem _ _ Hin) as [[i a] Hfind].
  exists a. unfold GetActiveAccount, GetAccount. rewrite Hfind.
  destruct (Accounts af) as [|first rest]; [done|].
  rewrite decide_False by done.
  by apply find_email_Some in Hfind as (_ & ? & _).
Qed.

Lemma reachable_invariants_witness :
  I1 (add_all [user1; user2; user1_updated])
  ∧ I2 (add_all [user1; user2; user1_updated])
  ∧ (Active (add_all [user1; user2; user1_updated]) ≠ "" →
     ∃ a, GetActiveAccount (add_all [user1; user2; user1_updated]) = Ok a
          ∧ Email a = Active (add_all [user1; user2; user1_updated])
          ∧ GetAccount (add_all [user1; user2; user1_updated])
              (Active (add_all [user1; user2; user1_updated])) = Ok a).
Proof.
  apply (reachable_invariants (add_all [user1; user2; user1_updated])).
  do 3 apply reach_add. apply reach_empty.
Defined.

(** * Further properties of the persistence layer *)

Section MorePersistence.

Context {Doc Legacy : Type} (E : Env Doc Legacy).

Implicit Types (w : World Doc Legacy) (configDir : string).

(** [SaveAccounts], step by step. *)
Lemma SaveAccounts_steps configDir af w :
  SaveAccounts E configDir af w
  = match filemu_Lock E (lock_path_of E configDir) with
    | Err e => (w, Some e)
    | Ok unlock =>
      match yaml_Marshal E af with
      | Err e => (w, Some e)
      | Ok data =>
        let '(w', err) :=
          os_WriteFile E (AccountsFilePath E configDir) data perm_0o600 w in
        (w', deferred unlock err)
      end
    end.
Proof.
  unfold SaveAccounts, marshalAccounts, lock_path_of.
  destruct (filemu_Lock E _) as [unlock|e]; [|done].
  by destruct (yaml_Marshal E af) as [data|e].
Qed.

(** X9.  The error [SaveAccounts] returns is that of the first step to
    fail: taking the lock, encoding, writing, releasing the lock.  When the
    lock or the encoding fails, nothing is written. *)
Theorem SaveAccounts_first_failure (configDir : string) (af : AccountsFile)
    (w : World Doc Legacy) :
  (∀ e, filemu_Lock E (lock_path_of E configDir) = Err e →
     SaveAccounts E configDir af w = (w, Some e))
  ∧ (∀ unlock e,
       filemu_Lock E (lock_path_of E configDir) = Ok unlock →
       yaml_Marshal E af = Err e →
       SaveAccounts E configDir af w = (w, Some e))
  ∧ (∀ unlock data e,
       filemu_Lock E (lock_path_of E configDir) = Ok unlock →
       yaml_Marshal E af = Ok data →
       write_fault E (AccountsFilePath E configDir) = Some e →
       (SaveAccounts E configDir af w).2 = Some e)
  ∧ (∀ unlock data,
       filemu_Lock E (lock_path_of E configDir) = Ok unlock →
       yaml_Marshal E af = Ok data →
       write_fault E (AccountsFilePath E configDir) = None →
       (SaveAccounts E configDir af w).2 = unlock).
Proof.
  rewrite SaveAccounts_steps. unfold os_WriteFile.
  split_and!.
  - by intros e ->.
  - by intros unlock e -> ->.
  - by intros unlock data e -> -> ->.
  - by intros unlock data -> -> ->.
Qed.

(** X10.  When only the release of the lock fails, [SaveAccounts] returns
    that error although the accounts file has been rewritten: it holds the
    encoded store. *)
Theorem SaveAccounts_unlock_failure (configDir : string) (af : AccountsFile)
    (w : World Doc Legacy) (data : Doc) (e : Error) :
  filemu_Lock E (lock_path_of E configDir) = Ok (Some e) →
  yaml_Marshal E af = Ok data →
  write_fault E (AccountsFilePath E configDir) = None →
  (SaveAccounts E configDir af w).2 = Some e
  ∧ files (SaveAccounts E configDir af w).1 !! AccountsFilePath E configDir
    = Some data.
Proof.
  intros Hlock Hdata Hwrite. rewrite SaveAccounts_steps, Hlock, Hdata.
  unfold os_WriteFile. rewrite Hwrite. simpl. split; [done|].
  apply lookup_insert_eq.
Qed.

(** X11.  Whatever it returns, [SaveAccounts] leaves every file other than
    the accounts file of the directory and the lock file beside it as it
    was, content and permission bits, and does not touch the legacy
    configuration.  (The lock file is the lock primitive's: it creates the
    file when it is not there.) *)
Theorem SaveAccounts_frame (configDir : string) (af : AccountsFile)
    (w : World Doc Legacy) :
  (∀ path,
     path ≠ AccountsFilePath E configDir →
     path ≠ lock_path_of E configDir →
     files (SaveAccounts E configDir af w).1 !! path = files w !! path
     ∧ modes (SaveAccounts E configDir af w).1 !! path = modes w !! path)
  ∧ legacy (SaveAccounts E configDir af w).1 = legacy w
  ∧ setter_log (SaveAccounts E configDir af w).1 = setter_log w.
Proof.
  rewrite SaveAccounts_steps.
  destruct (filemu_Lock E _) as [unlock|e]; [|done].
  destruct (yaml_Marshal E af) as [data|e]; [|done].
  unfold os_WriteFile. destruct (write_fault E _); [done|]. simpl.
  split_and!; [|done..].
  intros path Hne _. rewrite lookup_insert_ne by done. split; [done|].
  destruct (files w !! AccountsFilePath E configDir); [done|].
  by rewrite lookup_insert_ne.
Qed.

(** X12.  A load failure decides [SyncActiveAccountToConfig] before any
    setter is called: a not-exist error makes it a successful no-op, any
    other error is returned, and the world is as it was. *)
Theorem SyncActiveAccountToConfig_load_failure (configDir : string)
    (w : World Doc Legacy) (e : Error) :
  load_failure E configDir w e →
  SyncActiveAccountToConfig E configDir w
  = (w, if is_not_exist e then None else Some e).
Proof.
  intros Hfail. unfold SyncActiveAccountToConfig.
  rewrite (LoadAccounts_failure E configDir w e Hfail).
  by destruct (is_not_exist e).
Qed.

(** The sync of a loaded, non-empty store is the run of its prescribed
    calls. *)
Lemma SyncActiveAccountToConfig_loaded configDir w af :
  LoadAccounts E configDir w = Ok af →
  Accounts af ≠ [] →
  ∃ account,
    GetActiveAccount af = Ok account
    ∧ SyncActiveAccountToConfig E configDir w
      = invoke_in_order E
          (sync_calls (filepath_Join E configDir (FileName E)) account) w.
Proof.
  intros Hload Hne. unfold SyncActiveAccountToConfig. rewrite Hload.
  assert (HasAccounts af = true) as ->.
  { unfold HasAccounts. apply bool_decide_eq_true_2.
    destruct (Accounts af); simpl; [done|lia]. }
  assert (∃ a, GetActiveAccount af = Ok a) as [a Ha].
  { unfold GetActiveAccount. destruct (Accounts af) as [|first rest]; [done|].
    destruct (decide (Active af = "")); [by eauto|].
    destruct (find_email _ _) as [[? ?]|]; by eauto. }
  rewrite Ha. exists a. split; [done|]. simpl.
  unfold sync_calls, and_then, when, SetAccessToken, SetMetricsToken,
    SetLastLogin, IsZero. simpl.
  destruct (invoke E (CallSetAccessToken _ _) w) as [w1 [e|]]; [done|].
  destruct (decide (MetricsToken a = "")) as [Hm|Hm];
    [rewrite bool_decide_eq_true_2 by done
    |rewrite bool_decide_eq_false_2 by done]; simpl;
    destruct (decide (LastLogin a = 0%Z)) as [Ht|Ht];
    [rewrite bool_decide_eq_true_2 by done
    |rewrite bool_decide_eq_false_2 by done
    |rewrite bool_decide_eq_true_2 by done
    |rewrite bool_decide_eq_false_2 by done]; simpl.
  - done.
  - by destruct (invoke E (CallSetLastLogin _ _) w1) as [w2 [e|]].
  - by destruct (invoke E (CallSetMetricsToken _ _) w1) as [w2 [e|]].
  - destruct (invoke E (CallSetMetricsToken _ _) w1) as [w2 [e|]]; [done|].
    by destruct (invoke E (CallSetLastLogin _ _) w2) as [w3 [e|]].
Qed.

(** X13.  Save, then sync: after a successful [SaveAccounts] of a store
    with accounts, a [SyncActiveAccountToConfig] whose load is clean makes
    the calls prescribed for the account [GetActiveAccount] resolves in the
    store that was saved. *)
Theorem SaveAccounts_then_Sync (configDir : string) (af : AccountsFile)
    (w w' : World Doc Legacy) :
  SaveAccounts E configDir af w = (w', None) →
  (∀ data, yaml_Marshal E af = Ok data → yaml_Decode E data = Ok af) →
  filemu_RLock E (lock_path_of E configDir) = Ok None →
  open_fault E (AccountsFilePath E configDir) = None →
  close_result E (AccountsFilePath E configDir) = None →
  Accounts af ≠ [] →
  ∃ account,
    GetActiveAccount af = Ok account
    ∧ SyncActiveAccountToConfig E configDir w'
      = invoke_in_order E
          (sync_calls (filepath_Join E configDir (FileName E)) account) w'.
Proof.
  intros (data & Hdata & Hfile)%SaveAccounts_success Hcodec Hlock Hopen Hclose.
  apply SyncActiveAccountToConfig_loaded.
  apply (LoadAccounts_clean _ _ _ {| content := data; Close := None |}).
  - done.
  - unfold os_Open. by rewrite Hfile, Hopen, Hclose.
  - by apply Hcodec.
  - done.
Qed.

End MorePersistence.

Lemma SaveAccounts_unlock_failure_witness :
  (SaveAccounts
     (test_env (Ok (Some (ErrExternal false "unlock: input/output error")))
        (Ok None) None)
     "/home/fly" saved_store no_files).2
  = Some (ErrExternal false "unlock: input/output error")
  ∧ files (SaveAccounts
             (test_env
                (Ok (Some (ErrExternal false "unlock: input/output error")))
                (Ok None) None)
             "/home/fly" saved_store no_files).1
      !! "/home/fly/accounts.yml"
    = Some (YamlDoc.encode saved_store).
Proof.
  apply (SaveAccounts_unlock_failure
           (test_env
              (Ok (Some (ErrExternal false "unlock: input/output error")))
              (Ok None) None)
           "/home/fly" saved_store no_files (YamlDoc.encode saved_store)
           (ErrExternal false "unlock: input/output error"));
    reflexivity.
Defined.

Lemma SyncActiveAccountToConfig_load_failure_witness :
  SyncActiveAccountToConfig read_only_env "/home/fly" no_files
  = (no_files,
     Some (ErrExternal false "open flyctl.accounts.lock: permission denied")).
Proof.
  apply (SyncActiveAccountToConfig_load_failure read_only_env "/home/fly"
           no_files
           (ErrExternal false "open flyctl.accounts.lock: permission denied")).
  by apply fail_rlock.
Defined.

Lemma SaveAccounts_then_Sync_witness :
  ∃ account,
    GetActiveAccount saved_store = Ok account
    ∧ SyncActiveAccountToConfig ok_env "/home/fly" saved_world
      = invoke_in_order ok_env (sync_calls "/home/fly/config.yml" account)
          saved_world.
Proof.
  apply (SaveAccounts_then_Sync ok_env "/home/fly" saved_store no_files
           saved_world).
  - reflexivity.
  - intros data [= <-]. reflexivity.
  - reflexivity.
  - reflexivity.
  - reflexivity.
  - done.
Defined.

(** * Properties of the commands *)

Section CommandProperties.

Context {Doc Legacy : Type} (E : Env Doc Legacy) (S : Shell Legacy).

Implicit Types (m : Machine Doc Legacy) (w : World Doc Legacy).

(** ** What leaves the files alone *)

Lemma invoke_files c w :
  files (invoke E c w).1 = files w ∧ modes (invoke E c w).1 = modes w.
Proof.
  unfold invoke.
  destruct c as [path token|path token|path t];
    [destruct (set_access_token E path token (legacy w))
    |destruct (set_metrics_token E path token (legacy w))
    |destruct (set_last_login E path t (legacy w))]; done.
Qed.

Lemma invoke_in_order_files calls :
  ∀ w, files (invoke_in_order E calls w).1 = files w
       ∧ modes (invoke_in_order E calls w).1 = modes w.
Proof.
  induction calls as [|c calls IH]; intros w; simpl; [done|].
  destruct (invoke_files c w) as [Hf Hm].
  destruct (invoke E c w) as [w1 [e|]]; [done|].
  simpl in Hf, Hm. rewrite <- Hf, <- Hm. apply IH.
Qed.

(** The sync bridge writes through the setters only. *)
Lemma SyncActiveAccountToConfig_files configDir w :
  files (SyncActiveAccountToConfig E configDir w).1 = files w
  ∧ modes (SyncActiveAccountToConfig E configDir w).1 = modes w.
Proof.
  destruct (LoadAccounts E configDir w) as [af|e] eqn:Hload.
  - destruct (decide (Accounts af = [])) as [Hempty|Hne].
    + unfold SyncActiveAccountToConfig, HasAccounts.
      by rewrite Hload, Hempty.
    + destruct (SyncActiveAccountToConfig_loaded E configDir w af Hload Hne)
        as (account & _ & ->).
      apply invoke_in_order_files.
  - unfold SyncActiveAccountToConfig. by rewrite Hload.
Qed.

Lemma warnEnvVars_world m : world (warnEnvVars S m) = world m.
Proof.
  unfold warnEnvVars.
  by destruct (env_IsSet S (APITokenEnvKey S)),
    (env_IsSet S (AccessTokenEnvKey S)).
Qed.

Lemma revoke_world token warning m :
  world (revoke S token warning m) = world m.
Proof.
  unfold revoke. destruct (Authenticated S token); [|done].
  by destruct (gql_LogOut S token) as [[|]|].
Qed.

Lemma kill_agent_world m : world (kill_agent S m) = world m.
Proof. unfold kill_agent. by destruct (agent_DefaultClient S). Qed.

Lemma clear_config_files path m :
  files (world (clear_config S path m).1) = files (world m)
  ∧ modes (world (clear_config S path m).1) = modes (world m).
Proof.
  unfold clear_config. by destruct (config_Clear S path _).
Qed.

(** ** [warnEnvVars] *)

(** X14.  [warnEnvVars] writes at most one line, to the error stream, and
    none exactly when neither variable is set; the line names the
    variables that are set and no other. *)
Theorem warnEnvVars_spec (m : Machine Doc Legacy) :
  world (warnEnvVars S m) = world m
  ∧ ∃ events,
      trace (warnEnvVars S m) = trace m ++ events
      ∧ (length events ≤ 1)%nat
      ∧ (events = [] ↔
         env_IsSet S (APITokenEnvKey S) = false
         ∧ env_IsSet S (AccessTokenEnvKey S) = false)
      ∧ ∀ ev, ev ∈ events →
          ∃ format args,
            ev = ErrPrintf format args
            ∧ args
              = (if env_IsSet S (APITokenEnvKey S)
                 then [APITokenEnvKey S] else [])
                ++ (if env_IsSet S (AccessTokenEnvKey S)
                    then [AccessTokenEnvKey S] else []).
Proof.
  split; [apply warnEnvVars_world|]. unfold warnEnvVars.
  destruct (env_IsSet S (APITokenEnvKey S)),
    (env_IsSet S (AccessTokenEnvKey S)); simpl.
  - eexists [_]. split_and!; [done|simpl; lia|naive_solver|].
    intros ev ->%list_elem_of_singleton. eauto.
  - eexists [_]. split_and!; [done|simpl; lia|naive_solver|].
    intros ev ->%list_elem_of_singleton. eauto.
  - eexists [_]. split_and!; [done|simpl; lia|naive_solver|].
    intros ev ->%list_elem_of_singleton. eauto.
  - exists []. split_and!; [by rewrite app_nil_r|simpl; lia|done|].
    by intros ev ?%elem_of_nil.
Qed.

(** ** [runSwitch] *)

Lemma SetActive_success af email :
  email ∈ emails af →
  SetActive af email = ({| Active := email; Accounts := Accounts af |}, None).
Proof.
  intros [[i a] Hfind]%find_email_elem. unfold SetActive. by rewrite Hfind.
Qed.

Lemma HasAccounts_true af : Accounts af ≠ [] → HasAccounts af = true.
Proof.
  intros Hne. unfold HasAccounts. apply bool_decide_eq_true_2.
  destruct (Accounts af); simpl; [done|lia].
Qed.

(** X15.  [runSwitch] leaves the world as it is (no file written, no
    setter called) unless the store has more than one account and the
    target is the email of an account other than the active marker. *)
Theorem runSwitch_frame (m : Machine Doc Legacy) :
  world (runSwitch E S m).1 = world m
  ∨ ∃ af target,
      LoadAccounts E (ConfigDirectory S) (world m) = Ok af
      ∧ 1 < AccountCount af
      ∧ choose_target S "Select account:" af = Chosen target
      ∧ target ≠ Active af
      ∧ target ∈ emails af.
Proof.
  unfold runSwitch.
  destruct (LoadAccounts E (ConfigDirectory S) (world m)) as [af|e] eqn:Hload;
    [|by left].
  destruct (HasAccounts af) eqn:Hhas; simpl; [|by left].
  case_bool_decide as Hone; [destruct (Accounts af); by left|].
  destruct (choose_target S "Select account:" af) as [target|o] eqn:Hchoose;
    [|by left].
  case_decide as Hactive; [by left|].
  destruct (decide (target ∈ emails af)) as [Hin|Hnot].
  - right. exists af, target. split_and!; [done| |done..].
    unfold HasAccounts in Hhas. apply bool_decide_eq_true_1 in Hhas.
    unfold AccountCount in *. lia.
  - left. by rewrite (SetActive_not_found af target Hnot).
Qed.

(** X16.  When [runSwitch] returns nil after a real switch (more than one
    account, a target other than the marker), the target is the email of an
    account and the accounts file holds the encoding of the store with the
    marker on it and the accounts as they were. *)
Theorem runSwitch_done (m m' : Machine Doc Legacy) (af : AccountsFile)
    (target : string) :
  runSwitch E S m = (m', Done) →
  LoadAccounts E (ConfigDirectory S) (world m) = Ok af →
  1 < AccountCount af →
  choose_target S "Select account:" af = Chosen target →
  target ≠ Active af →
  target ∈ emails af
  ∧ ∃ data,
      yaml_Marshal E {| Active := target; Accounts := Accounts af |} = Ok data
      ∧ files (world m') !! AccountsFilePath E (ConfigDirectory S) = Some data.
Proof.
  intros Hrun Hload Hcount Hchoose Hactive. unfold runSwitch in Hrun.
  rewrite Hload in Hrun.
  rewrite HasAccounts_true in Hrun
    by (unfold AccountCount in Hcount; destruct (Accounts af); simpl in *;
        [lia|done]).
  simpl in Hrun. rewrite bool_decide_eq_false_2 in Hrun by lia.
  rewrite Hchoose in Hrun. rewrite decide_False in Hrun by done.
  destruct (decide (target ∈ emails af)) as [Hin|Hnot]; cycle 1.
  { by rewrite (SetActive_not_found af target Hnot) in Hrun. }
  split; [done|]. rewrite (SetActive_success af target Hin) in Hrun.
  destruct (SaveAccounts E (ConfigDirectory S) _ (world m))
    as [w1 [e|]] eqn:Hsave; [done|].
  apply SaveAccounts_success in Hsave as (data & Hdata & Hfile).
  exists data. split; [done|].
  destruct (SyncActiveAccountToConfig_files (ConfigDirectory S) w1)
    as [Hfiles _].
  destruct (SyncActiveAccountToConfig E (ConfigDirectory S) w1)
    as [w2 [e|]]; [done|].
  injection Hrun as <-. simpl. rewrite kill_agent_world. simpl.
  simpl in Hfiles. by rewrite Hfiles.
Qed.

(** X17.  [runSwitch] on an email that no account carries: with exactly
    one account it returns nil all the same, with more it returns nil only
    if the email is the (stale) marker and the not-found error otherwise.
    In no case is the world changed. *)
Theorem runSwitch_unknown_email (m : Machine Doc Legacy) (af : AccountsFile)
    (target : string) :
  FirstArg S = target →
  target ≠ "" →
  LoadAccounts E (ConfigDirectory S) (world m) = Ok af →
  Accounts af ≠ [] →
  target ∉ emails af →
  world (runSwitch E S m).1 = world m
  ∧ (runSwitch E S m).2
    = if bool_decide (AccountCount af = 1) then Done
      else if decide (target = Active af) then Done
      else Failed (fmt_Errorf
                     "account '%s' not found. Use 'fly auth accounts' to list available accounts"
                     [AStr target]).
Proof.
  intros Harg Hne Hload Hacc Hnot. unfold runSwitch.
  rewrite Hload, (HasAccounts_true af Hacc). simpl.
  case_bool_decide as Hone; [by destruct (Accounts af)|].
  unfold choose_target. rewrite Harg, decide_False by done.
  case_decide; [done|].
  by rewrite (SetActive_not_found af target Hnot).
Qed.

(** ** [runLogout] *)

Lemma quiet_refl m : quiet m m.
Proof. exists []. split; [by rewrite app_nil_r|]. intros path. set_solver. Qed.

Lemma quiet_trans m1 m2 m3 : quiet m1 m2 → quiet m2 m3 → quiet m1 m3.
Proof.
  intros (ev1 & H1 & Hq1) (ev2 & H2 & Hq2). exists (ev1 ++ ev2). split.
  - by rewrite H2, H1, app_assoc.
  - intros path [?|?]%elem_of_app; [by apply (Hq1 path)|by apply (Hq2 path)].
Qed.

Lemma quiet_emit ev m : (∀ path, ev ≠ Clear path) → quiet m (emit ev m).
Proof.
  intros Hev. exists [ev]. split; [done|].
  intros path Hin%list_elem_of_singleton. by apply (Hev path).
Qed.

Lemma quiet_with_world w m : quiet m (with_world w m).
Proof. exists []. split; [by rewrite app_nil_r|]. intros path. set_solver. Qed.

Lemma quiet_revoke token format args m :
  quiet m (revoke S token (Warnf format args) m).
Proof.
  unfold revoke. destruct (Authenticated S token); [|apply quiet_refl].
  destruct (gql_LogOut S token) as [[|]|e].
  - by apply quiet_emit.
  - eapply quiet_trans; by apply quiet_emit.
  - eapply quiet_trans; [eapply quiet_trans|]; by apply quiet_emit.
Qed.

Lemma quiet_warnEnvVars m : quiet m (warnEnvVars S m).
Proof.
  unfold warnEnvVars.
  destruct (env_IsSet S (APITokenEnvKey S)),
    (env_IsSet S (AccessTokenEnvKey S)); simpl;
    first [by apply quiet_emit|apply quiet_refl].
Qed.

Lemma quiet_kill_agent m : quiet m (kill_agent S m).
Proof.
  unfold kill_agent.
  destruct (agent_DefaultClient S); [apply quiet_refl|by apply quiet_emit].
Qed.

(** The first steps of [runLogout], when stopping the agent does not fail:
    the world is untouched. *)
Lemma runLogout_agent_stopped m :
  (agent_DefaultClient S = None → agent_Kill S = None) →
  ∃ m1,
    match agent_DefaultClient S with
    | None =>
      (emit Kill (revoke S (context_token S)
                    (Warnf "Unable to revoke token" []) m), agent_Kill S)
    | Some _ =>
      (revoke S (context_token S) (Warnf "Unable to revoke token" []) m, None)
    end = (m1, None)
    ∧ world m1 = world m
    ∧ quiet m m1.
Proof.
  intros Hkill. destruct (agent_DefaultClient S) as [e|].
  - eexists. split_and!; [done|apply revoke_world|apply quiet_revoke].
  - rewrite Hkill by done. eexists. split_and!; [done| |].
    + simpl. apply revoke_world.
    + eapply quiet_trans; [apply quiet_revoke|by apply quiet_emit].
Qed.

(** X18.  When stopping the agent fails, [runLogout] returns that error,
    wrapped, before it has loaded the accounts: the accounts file and the
    legacy configuration are as they were. *)
Theorem runLogout_agent_failure (m : Machine Doc Legacy) (e : Error) :
  agent_DefaultClient S = None →
  agent_Kill S = Some e →
  (runLogout E S m).2
  = Failed (fmt_Errorf "failed stopping agent: %w" [AErr e])
  ∧ world (runLogout E S m).1 = world m.
Proof.
  intros Hclient Hkill. unfold runLogout. rewrite Hclient, Hkill. simpl.
  split; [done|]. apply revoke_world.
Qed.

(** X19.  [runLogout] on a store whose marker names no account, when
    stopping the agent does not fail (there is no agent client, or its
    [Kill] returns nil): no account is removed and the accounts file is not
    written; the legacy configuration is cleared, and the command returns
    what clearing returns. *)
Theorem runLogout_stale_marker (m : Machine Doc Legacy) (af : AccountsFile) :
  (agent_DefaultClient S = None → agent_Kill S = None) →
  LoadAccounts E (ConfigDirectory S) (world m) = Ok af →
  Accounts af ≠ [] →
  Active af ∉ emails af →
  files (world (runLogout E S m).1) = files (world m)
  ∧ legacy (world (runLogout E S m).1)
    = (config_Clear S (ConfigFile S) (legacy (world m))).1
  ∧ (runLogout E S m).2
    = match (config_Clear S (ConfigFile S) (legacy (world m))).2 with
      | None => Done
      | Some e =>
        Failed (fmt_Errorf "failed clearing config file at %s: %w\n"
                  [AStr (ConfigFile S); AErr e])
      end.
Proof.
  intros Hagent Hload Hacc Hstale. unfold runLogout.
  destruct (runLogout_agent_stopped m Hagent) as (m1 & -> & Hw & _).
  rewrite Hw, Hload, (HasAccounts_true af Hacc).
  rewrite (RemoveAccount_not_found af (Active af) Hstale).
  unfold clear_config. rewrite Hw.
  destruct (config_Clear S (ConfigFile S) (legacy (world m))) as [l [e|]];
    simpl; [done|].
  by rewrite warnEnvVars_world.
Qed.

(** X20.  [runLogout] with the marker on one of several accounts, when
    stopping the agent does not fail (there is no agent client, or its
    [Kill] returns nil): the command returns nil and never clears the
    legacy configuration, whatever saving and syncing return; when the save
    succeeds, the accounts file holds the encoding of the store without the
    account that was active. *)
Theorem runLogout_switches (m : Machine Doc Legacy) (af : AccountsFile) :
  (agent_DefaultClient S = None → agent_Kill S = None) →
  LoadAccounts E (ConfigDirectory S) (world m) = Ok af →
  Active af ∈ emails af →
  1 < AccountCount af →
  (runLogout E S m).2 = Done
  ∧ quiet m (runLogout E S m).1
  ∧ ((SaveAccounts E (ConfigDirectory S)
        (RemoveAccount af (Active af)).1 (world m)).2 = None →
     ∃ data,
       yaml_Marshal E (RemoveAccount af (Active af)).1 = Ok data
       ∧ files (world (runLogout E S m).1)
           !! AccountsFilePath E (ConfigDirectory S) = Some data).
Proof.
  intros Hagent Hload Hin Hcount. unfold runLogout.
  destruct (runLogout_agent_stopped m Hagent) as (m1 & -> & Hw & Hq).
  assert (Accounts af ≠ []) as Hacc.
  { unfold AccountCount in Hcount. destruct (Accounts af); simpl in *;
      [lia|done]. }
  rewrite Hw, Hload, (HasAccounts_true af Hacc).
  destruct (RemoveAccount_found af (Active af) Hin)
    as (before & a & after & Hsplit & _ & _ & Hrm).
  rewrite Hrm. simpl.
  set (af' := {| Active := _; Accounts := before ++ after |}).
  assert (HasAccounts af' = true) as Hhas.
  { apply HasAccounts_true. simpl. unfold AccountCount in Hcount.
    rewrite Hsplit, length_app in Hcount. simpl in Hcount.
    destruct before, after; simpl in *; (done || lia). }
  destruct (SaveAccounts E (ConfigDirectory S) af' (world m))
    as [w1 saveErr] eqn:Hsave.
  rewrite Hhas.
  set (m2 := match saveErr with
             | Some e => emit (Warnf "Failed to save accounts file: %v" [AErr e])
                           (with_world w1 m1)
             | None => with_world w1 m1
             end).
  assert (world m2 = w1 ∧ quiet m1 m2) as [Hw2 Hq2].
  { unfold m2. destruct saveErr; (split; [done|]).
    - eapply quiet_trans; [apply quiet_with_world|by apply quiet_emit].
    - apply quiet_with_world. }
  destruct (SyncActiveAccountToConfig_files (ConfigDirectory S) (world m2))
    as [Hfiles _].
  destruct (SyncActiveAccountToConfig E (ConfigDirectory S) (world m2))
    as [w3 syncErr].
  simpl in Hfiles.
  split_and!; [done| |].
  - eapply quiet_trans; [exact Hq|]. eapply quiet_trans; [exact Hq2|].
    eapply quiet_trans; [|apply quiet_warnEnvVars].
    eapply quiet_trans; [|by apply quiet_emit].
    eapply quiet_trans; [|by apply quiet_emit].
    destruct syncErr.
    + eapply quiet_trans; [apply quiet_with_world|by apply quiet_emit].
    + apply quiet_with_world.
  - simpl. intros ->.
    apply SaveAccounts_success in Hsave as (data & Hdata & Hfile).
    exists data. split; [done|]. rewrite warnEnvVars_world.
    destruct syncErr; simpl; by rewrite Hfiles, Hw2.
Qed.

(** X21.  [runLogout] with the marker on the only account, when stopping
    the agent does not fail (there is no agent client, or its [Kill]
    returns nil): the empty store is saved in place of the accounts (a
    failure of the save is only logged), then the legacy configuration is
    cleared, and the command returns what clearing returns. *)
Theorem runLogout_last_account (m : Machine Doc Legacy) (af : AccountsFile) :
  (agent_DefaultClient S = None → agent_Kill S = None) →
  LoadAccounts E (ConfigDirectory S) (world m) = Ok af →
  Active af ∈ emails af →
  AccountCount af = 1 →
  files (world (runLogout E S m).1)
  = files (SaveAccounts E (ConfigDirectory S) empty_store (world m)).1
  ∧ legacy (world (runLogout E S m).1)
    = (config_Clear S (ConfigFile S)
         (legacy (SaveAccounts E (ConfigDirectory S) empty_store
                    (world m)).1)).1
  ∧ (runLogout E S m).2
    = match (config_Clear S (ConfigFile S)
               (legacy (SaveAccounts E (ConfigDirectory S) empty_store
                          (world m)).1)).2 with
      | None => Done
      | Some e =>
        Failed (fmt_Errorf "failed clearing config file at %s: %w\n"
                  [AStr (ConfigFile S); AErr e])
      end.
Proof.
  intros Hagent Hload Hin Hcount. unfold runLogout.
  destruct (runLogout_agent_stopped m Hagent) as (m1 & -> & Hw & _).
  assert (Accounts af ≠ []) as Hacc.
  { unfold AccountCount in Hcount. by destruct (Accounts af). }
  rewrite Hw, Hload, (HasAccounts_true af Hacc).
  destruct (RemoveAccount_found af (Active af) Hin)
    as (before & a & after & Hsplit & _ & _ & Hrm).
  unfold AccountCount in Hcount. rewrite Hsplit, length_app in Hcount.
  simpl in Hcount.
  destruct before; [|simpl in Hcount; lia].
  destruct after; [|simpl in Hcount; lia].
  rewrite Hrm. simpl. rewrite decide_True by done.
  change {| Active := ""; Accounts := [] |} with empty_store.
  destruct (SaveAccounts E (ConfigDirectory S) empty_store (world m))
    as [w1 saveErr].
  unfold clear_config. simpl.
  destruct saveErr as [saveErr|]; simpl;
    destruct (config_Clear S (ConfigFile S) (legacy w1)) as [l [clearErr|]];
    simpl; by rewrite ?warnEnvVars_world.
Qed.

(** ** [runRemove] *)

Lemma GetAccount_found af email :
  email ∈ emails af → ∃ account, GetAccount af email = Ok account.
Proof.
  intros [[i a] Hfind]%find_email_elem. unfold GetAccount. rewrite Hfind.
  eauto.
Qed.

Lemma GetAccount_not_found af email :
  email ∉ emails af → GetAccount af email = Err ErrAccountNotFound.
Proof.
  intros Hnot%find_email_None. unfold GetAccount. by rewrite Hnot.
Qed.

Lemma revoke_token_world token warning m :
  world (if decide (token = "") then m else revoke S token warning m)
  = world m.
Proof. case_decide; [done|apply revoke_world]. Qed.

(** X22.  [runRemove] on an email that no account carries returns the
    not-found error and does nothing else: no question is asked, no token
    revoked, nothing written. *)
Theorem runRemove_unknown_email (m : Machine Doc Legacy) (af : AccountsFile)
    (target : string) :
  LoadAccounts E (ConfigDirectory S) (world m) = Ok af →
  Accounts af ≠ [] →
  choose_target S "Select account to remove:" af = Chosen target →
  target ∉ emails af →
  runRemove E S m
  = (m, Failed (fmt_Errorf
                  "account '%s' not found. Use 'fly auth accounts' to list available accounts"
                  [AStr target])).
Proof.
  intros Hload Hacc Hchoose Hnot. unfold runRemove.
  rewrite Hload, (HasAccounts_true af Hacc), Hchoose. simpl.
  by rewrite (GetAccount_not_found af target Hnot).
Qed.

(** X23.  When the confirmation is answered with no, [runRemove] prints
    that it was cancelled and returns nil: no token has been revoked, the
    store is not written, the agent is left running. *)
Theorem runRemove_cancelled (m : Machine Doc Legacy) (af : AccountsFile)
    (target : string) :
  LoadAccounts E (ConfigDirectory S) (world m) = Ok af →
  choose_target S "Select account to remove:" af = Chosen target →
  target ∈ emails af →
  yes S = false →
  prompt_Confirm S (confirmation af target) = Ok false →
  runRemove E S m = (emit (OutPrintln "Cancelled") m, Done).
Proof.
  intros Hload Hchoose Hin Hyes Hconfirm. unfold runRemove.
  assert (Accounts af ≠ []) as Hacc.
  { intros Hempty. unfold emails in Hin. rewrite Hempty in Hin.
    by apply elem_of_nil in Hin. }
  rewrite Hload, (HasAccounts_true af Hacc), Hchoose. simpl.
  destruct (GetAccount_found af target Hin) as [account ->].
  by rewrite Hyes, Hconfirm.
Qed.

(** X24.  When [runRemove], run with [--yes], returns nil, the target was
    the email of an account and the accounts file holds the encoding of the
    store [RemoveAccount] leaves. *)
Theorem runRemove_done (m m' : Machine Doc Legacy) (af : AccountsFile)
    (target : string) :
  runRemove E S m = (m', Done) →
  LoadAccounts E (ConfigDirectory S) (world m) = Ok af →
  Accounts af ≠ [] →
  choose_target S "Select account to remove:" af = Chosen target →
  yes S = true →
  target ∈ emails af
  ∧ ∃ data,
      yaml_Marshal E (RemoveAccount af target).1 = Ok data
      ∧ files (world m') !! AccountsFilePath E (ConfigDirectory S) = Some data.
Proof.
  intros Hrun Hload Hacc Hchoose Hyes. unfold runRemove in Hrun.
  rewrite Hload, (HasAccounts_true af Hacc), Hchoose in Hrun. simpl in Hrun.
  destruct (decide (target ∈ emails af)) as [Hin|Hnot]; cycle 1.
  { by rewrite (GetAccount_not_found af target Hnot) in Hrun. }
  split; [done|].
  destruct (GetAccount_found af target Hin) as [account Haccount].
  rewrite Haccount, Hyes in Hrun.
  set (m1 := if decide (AccessToken account = "") then m
             else revoke S (AccessToken account)
                    (Warnf "Unable to revoke token for %s" [AStr target]) m)
    in Hrun.
  assert (world m1 = world m) as Hw by apply revoke_token_world.
  clearbody m1.
  destruct (RemoveAccount af target) as [af' [e|]]; [done|].
  rewrite Hw in Hrun. simpl.
  destruct (SaveAccounts E (ConfigDirectory S) af' (world m))
    as [w1 [e|]] eqn:Hsave; [done|].
  apply SaveAccounts_success in Hsave as (data & Hdata & Hfile).
  exists data. split; [done|]. simpl in Hrun.
  destruct (bool_decide (target = Active af)).
  - destruct (HasAccounts af').
    + destruct (SyncActiveAccountToConfig_files (ConfigDirectory S) w1)
        as [Hfiles _].
      destruct (SyncActiveAccountToConfig E (ConfigDirectory S) w1)
        as [w2 [e|]]; [done|].
      injection Hrun as <-. simpl. rewrite kill_agent_world. simpl.
      simpl in Hfiles. by rewrite Hfiles.
    + unfold clear_config in Hrun. simpl in Hrun.
      destruct (config_Clear S (ConfigFile S) (legacy w1)) as [l [e|]];
        [done|].
      injection Hrun as <-. simpl. by rewrite kill_agent_world.
  - by injection Hrun as <-.
Qed.

(** X25.  The token is revoked before the store is saved: once the removal
    is confirmed, by [--yes] or by the answer yes to the prompt, and the
    save then fails on its lock, [runRemove] returns the save error and the
    world is as it was (the account is still in the file), yet [gql.LogOut]
    has been called with the account's token. *)
Theorem runRemove_revoked_not_saved (m : Machine Doc Legacy)
    (af : AccountsFile) (target : string) (account : Account) (e : Error) :
  LoadAccounts E (ConfigDirectory S) (world m) = Ok af →
  choose_target S "Select account to remove:" af = Chosen target →
  GetAccount af target = Ok account →
  yes S = true ∨ prompt_Confirm S (confirmation af target) = Ok true →
  AccessToken account ≠ "" →
  Authenticated S (AccessToken account) = true →
  filemu_Lock E (lock_path_of E (ConfigDirectory S)) = Err e →
  (runRemove E S m).2
  = Failed (fmt_Errorf "failed to save accounts: %w" [AErr e])
  ∧ world (runRemove E S m).1 = world m
  ∧ LogOut (AccessToken account) ∈ trace (runRemove E S m).1.
Proof.
  intros Hload Hchoose Haccount Hconfirm Htoken Hauth Hlock.
  unfold runRemove.
  assert (target ∈ emails af) as Hin.
  { destruct (decide (target ∈ emails af)) as [?|Hnot]; [done|].
    by rewrite (GetAccount_not_found af target Hnot) in Haccount. }
  assert (Accounts af ≠ []) as Hacc.
  { intros Hempty. unfold emails in Hin. rewrite Hempty in Hin.
    by apply elem_of_nil in Hin. }
  rewrite Hload, (HasAccounts_true af Hacc), Hchoose. simpl.
  rewrite Haccount.
  destruct (RemoveAccount_found af target Hin)
    as (before & a & after & _ & _ & _ & Hrm).
  unfold lock_path_of in Hlock.
  destruct Hconfirm as [->|Hprompt];
    [|destruct (yes S); [|rewrite Hprompt]].
  all: rewrite decide_False by done.
  all: rewrite Hrm, revoke_world.
  all: unfold SaveAccounts, marshalAccounts.
  all: rewrite Hlock; simpl.
  all: split_and!; [done|by rewrite ?revoke_world|].
  all: unfold revoke; rewrite Hauth.
  all: destruct (gql_LogOut S (AccessToken account)) as [[|]|err]; simpl;
    set_solver.
Qed.

(** ** [runAccounts] *)

(** X26.  The JSON listing of a store that satisfies I1 and I2 and has
    accounts: one entry per account, in the order of the store, and exactly
    one of them is flagged active, the one whose email is the marker.
    Nothing but the listing is done. *)
Theorem runAccounts_json (m : Machine Doc Legacy) (af : AccountsFile) :
  LoadAccounts E (ConfigDirectory S) (world m) = Ok af →
  Accounts af ≠ [] →
  I1 af →
  I2 af →
  JSONOutput S = true →
  ∃ before entry after,
    (runAccounts E S m).1 = emit (RenderJSON (before ++ entry :: after)) m
    ∧ json_Email <$> before ++ entry :: after = emails af
    ∧ json_Email entry = Active af
    ∧ json_Active entry = true
    ∧ Forall (λ other, json_Active other = false) (before ++ after).
Proof.
  intros Hload Hacc Hi1 Hi2 Hjson. unfold runAccounts.
  rewrite Hload, (HasAccounts_true af Hacc), Hjson. simpl.
  destruct (find_email_elem _ _ (Hi2 Hacc)) as [[i a] Hfind].
  destruct (find_email_split _ _ _ _ Hfind) as [Hsplit Hbefore].
  apply find_email_Some in Hfind as (_ & Ha & _).
  unfold I1, emails, json_accounts in *.
  destruct af as [active accounts]. simpl in *.
  remember (take i accounts) as before eqn:Hb.
  remember (drop (Datatypes.S i) accounts) as after eqn:Ha'.
  clear Hb Ha'. subst accounts.
  rewrite fmap_app, fmap_cons in Hi1.
  apply NoDup_app in Hi1 as (_ & _ & [Hafter _]%NoDup_cons).
  rewrite fmap_app, fmap_cons.
  eexists _, _, _. split_and!; [done| | | |].
  - rewrite !fmap_app, !fmap_cons, <- !list_fmap_compose. done.
  - done.
  - simpl. by apply bool_decide_eq_true_2.
  - apply Forall_app. split; apply Forall_fmap, Forall_forall;
      intros b Hb; simpl; apply bool_decide_eq_false_2; intros Heq.
    + apply Hbefore, list_elem_of_fmap. eauto.
    + apply Hafter. rewrite Ha. apply list_elem_of_fmap. eauto.
Qed.

End CommandProperties.

(** ** The commands in the concrete environment *)

(** X16 on [fly auth switch user2@example.com] over the saved store. *)
Lemma runSwitch_done_witness :
  "user2@example.com" ∈ emails saved_store
  ∧ ∃ data,
      yaml_Marshal ok_env
        {| Active := "user2@example.com"; Accounts := Accounts saved_store |}
      = Ok data
      ∧ files (world (runSwitch ok_env (yes_shell "user2@example.com")
                        saved_machine).1)
          !! AccountsFilePath ok_env
               (ConfigDirectory (yes_shell "user2@example.com"))
        = Some data.
Proof.
  apply (runSwitch_done ok_env (yes_shell "user2@example.com") saved_machine
           (runSwitch ok_env (yes_shell "user2@example.com") saved_machine).1
           saved_store "user2@example.com").
  - reflexivity.
  - reflexivity.
  - by apply (bool_decide_unpack _).
  - reflexivity.
  - by apply (bool_decide_unpack _).
Defined.

(** X17 on [fly auth switch nobody@example.com] over the saved store. *)
Lemma runSwitch_unknown_email_witness :
  world (runSwitch ok_env (yes_shell "nobody@example.com") saved_machine).1
  = world saved_machine
  ∧ (runSwitch ok_env (yes_shell "nobody@example.com") saved_machine).2
    = Failed (fmt_Errorf
                "account '%s' not found. Use 'fly auth accounts' to list available accounts"
                [AStr "nobody@example.com"]).
Proof.
  apply (runSwitch_unknown_email ok_env (yes_shell "nobody@example.com")
           saved_machine saved_store "nobody@example.com").
  - reflexivity.
  - by apply (bool_decide_unpack _).
  - reflexivity.
  - done.
  - by apply (bool_decide_unpack _).
Defined.

(** X18 with an agent that cannot be stopped. *)
Lemma runLogout_agent_failure_witness :
  (runLogout ok_env
     (test_shell "" true (Ok true) (Some (ErrExternal false "agent: timeout")))
     saved_machine).2
  = Failed (fmt_Errorf "failed stopping agent: %w"
              [AErr (ErrExternal false "agent: timeout")])
  ∧ world (runLogout ok_env
             (test_shell "" true (Ok true)
                (Some (ErrExternal false "agent: timeout")))
             saved_machine).1
    = world saved_machine.
Proof.
  apply (runLogout_agent_failure ok_env
           (test_shell "" true (Ok true)
              (Some (ErrExternal false "agent: timeout")))
           saved_machine (ErrExternal false "agent: timeout"));
    reflexivity.
Defined.

(** X19 over a store whose marker names no account. *)
Lemma runLogout_stale_marker_witness :
  files (world (runLogout ok_env (yes_shell "") (machine_with stale_store)).1)
  = files (world (machine_with stale_store))
  ∧ legacy (world (runLogout ok_env (yes_shell "")
                     (machine_with stale_store)).1)
    = mkLegacyConfig "" "" 0%Z
  ∧ (runLogout ok_env (yes_shell "") (machine_with stale_store)).2 = Done.
Proof.
  apply (runLogout_stale_marker ok_env (yes_shell "")
           (machine_with stale_store) stale_store).
  - done.
  - reflexivity.
  - done.
  - by apply (bool_decide_unpack _).
Defined.

(** X20 over the saved store: [user1] is logged out, [user2] remains. *)
Lemma runLogout_switches_witness :
  (runLogout ok_env (yes_shell "") saved_machine).2 = Done
  ∧ quiet saved_machine (runLogout ok_env (yes_shell "") saved_machine).1
  ∧ ((SaveAccounts ok_env (ConfigDirectory (yes_shell ""))
        (RemoveAccount saved_store (Active saved_store)).1
        (world saved_machine)).2 = None →
     ∃ data,
       yaml_Marshal ok_env (RemoveAccount saved_store (Active saved_store)).1
       = Ok data
       ∧ files (world (runLogout ok_env (yes_shell "") saved_machine).1)
           !! AccountsFilePath ok_env (ConfigDirectory (yes_shell ""))
         = Some data).
Proof.
  apply (runLogout_switches ok_env (yes_shell "") saved_machine saved_store).
  - done.
  - reflexivity.
  - by apply (bool_decide_unpack _).
  - by apply (bool_decide_unpack _).
Defined.

(** X21 over a store with one account. *)
Lemma runLogout_last_account_witness :
  files (world (runLogout ok_env (yes_shell "")
                  (machine_with single_store)).1)
  = files (SaveAccounts ok_env "/home/fly" empty_store
             (world (machine_with single_store))).1
  ∧ legacy (world (runLogout ok_env (yes_shell "")
                     (machine_with single_store)).1)
    = mkLegacyConfig "" "" 0%Z
  ∧ (runLogout ok_env (yes_shell "") (machine_with single_store)).2 = Done.
Proof.
  apply (runLogout_last_account ok_env (yes_shell "")
           (machine_with single_store) single_store).
  - done.
  - reflexivity.
  - by apply (bool_decide_unpack _).
  - reflexivity.
Defined.

(** X22 on [fly auth remove nobody@example.com]. *)
Lemma runRemove_unknown_email_witness :
  runRemove ok_env (yes_shell "nobody@example.com") saved_machine
  = (saved_machine,
     Failed (fmt_Errorf
               "account '%s' not found. Use 'fly auth accounts' to list available accounts"
               [AStr "nobody@example.com"])).
Proof.
  apply (runRemove_unknown_email ok_env (yes_shell "nobody@example.com")
           saved_machine saved_store "nobody@example.com").
  - reflexivity.
  - done.
  - reflexivity.
  - by apply (bool_decide_unpack _).
Defined.

(** X23 on [fly auth remove user2@example.com], answered with no. *)
Lemma runRemove_cancelled_witness :
  runRemove ok_env (test_shell "user2@example.com" false (Ok false) None)
    saved_machine
  = (emit (OutPrintln "Cancelled") saved_machine, Done).
Proof.
  apply (runRemove_cancelled ok_env
           (test_shell "user2@example.com" false (Ok false) None)
           saved_machine saved_store "user2@example.com").
  - reflexivity.
  - reflexivity.
  - by apply (bool_decide_unpack _).
  - reflexivity.
  - reflexivity.
Defined.

(** X24 on [fly auth remove --yes user2@example.com]. *)
Lemma runRemove_done_witness :
  "user2@example.com" ∈ emails saved_store
  ∧ ∃ data,
      yaml_Marshal ok_env (RemoveAccount saved_store "user2@example.com").1
      = Ok data
      ∧ files (world (runRemove ok_env (yes_shell "user2@example.com")
                        saved_machine).1)
          !! AccountsFilePath ok_env
               (ConfigDirectory (yes_shell "user2@example.com"))
        = Some data.
Proof.
  apply (runRemove_done ok_env (yes_shell "user2@example.com") saved_machine
           (runRemove ok_env (yes_shell "user2@example.com") saved_machine).1
           saved_store "user2@example.com").
  - reflexivity.
  - reflexivity.
  - done.
  - reflexivity.
  - reflexivity.
Defined.

(** X25 when the accounts cannot be locked for writing, with [--yes] and
    with the prompt answered yes. *)
Lemma runRemove_revoked_not_saved_witness :
  ((runRemove write_locked_env (yes_shell "user2@example.com")
      saved_machine).2
   = Failed (fmt_Errorf "failed to save accounts: %w"
               [AErr (ErrExternal false
                        "lock: resource temporarily unavailable")])
   ∧ world (runRemove write_locked_env (yes_shell "user2@example.com")
              saved_machine).1
     = world saved_machine
   ∧ LogOut "token2"
     ∈ trace (runRemove write_locked_env (yes_shell "user2@example.com")
                saved_machine).1)
  ∧ ((runRemove write_locked_env
        (test_shell "user2@example.com" false (Ok true) None)
        saved_machine).2
     = Failed (fmt_Errorf "failed to save accounts: %w"
                 [AErr (ErrExternal false
                          "lock: resource temporarily unavailable")])
     ∧ world (runRemove write_locked_env
                (test_shell "user2@example.com" false (Ok true) None)
                saved_machine).1
       = world saved_machine
     ∧ LogOut "token2"
       ∈ trace (runRemove write_locked_env
                  (test_shell "user2@example.com" false (Ok true) None)
                  saved_machine).1).
Proof.
  split.
  - apply (runRemove_revoked_not_saved write_locked_env
             (yes_shell "user2@example.com") saved_machine saved_store
             "user2@example.com"
             (mkAccount "user2@example.com" "token2" ""
                63871408800000000000%Z)
             (ErrExternal false "lock: resource temporarily unavailable")).
    + reflexivity.
    + reflexivity.
    + reflexivity.
    + left. reflexivity.
    + by apply (bool_decide_unpack _).
    + reflexivity.
    + reflexivity.
  - apply (runRemove_revoked_not_saved write_locked_env
             (test_shell "user2@example.com" false (Ok true) None)
             saved_machine saved_store "user2@example.com"
             (mkAccount "user2@example.com" "token2" ""
                63871408800000000000%Z)
             (ErrExternal false "lock: resource temporarily unavailable")).
    + reflexivity.
    + reflexivity.
    + reflexivity.
    + right. reflexivity.
    + by apply (bool_decide_unpack _).
    + reflexivity.
    + reflexivity.
Defined.

(** X26 on [fly auth accounts --json] over the saved store. *)
Lemma runAccounts_json_witness :
  ∃ before entry after,
    (runAccounts ok_env (yes_shell "") saved_machine).1
    = emit (RenderJSON (before ++ entry :: after)) saved_machine
    ∧ json_Email <$> before ++ entry :: after = emails saved_store
    ∧ json_Email entry = Active saved_store
    ∧ json_Active entry = true
    ∧ Forall (λ other, json_Active other = false) (before ++ after).
Proof.
  apply (runAccounts_json ok_env (yes_shell "") saved_machine saved_store).
  - reflexivity.
  - done.
  - by apply (bool_decide_unpack _).
  - intros _. by apply (bool_decide_unpack _).
  - reflexivity.
Defined.
